(** * Margin shortfall penalty checker

    A shallow embedding of the calculation performed by [MP.py] (the
    "Basic Penalty Check" tab, lines 85-206) and the properties its
    specification states about it, followed by the metrics of that tab,
    the example blocks of the "Multiple Shortfalls" tab (lines 291-332)
    and further properties read off the code.

    The script computes on Python numbers: the two margins and the penalty
    rate are Python [float]s (IEEE 754 binary64), the day and instance
    counters are Python [int]s, and the integer literals [0], [10], [100]
    and [100000] meet them in mixed arithmetic.  Floats are modelled with
    the executable IEEE 754 specification [SpecFloat] of the standard
    library at precision 53 and maximal exponent 1024, so every definition
    below can be evaluated on concrete inputs. *)

From Stdlib Require Import ZArith Lia Bool List.
From Stdlib Require Import Floats.SpecFloat.
Import ListNotations.

Local Open Scope Z_scope.

(** ** Binary64 arithmetic *)

Module B64.

Definition prec : Z := 53.
Definition emax : Z := 1024.

Definition float : Type := spec_float.

Definition add : float -> float -> float := SFadd prec emax.
Definition sub : float -> float -> float := SFsub prec emax.
Definition mul : float -> float -> float := SFmul prec emax.
Definition div : float -> float -> float := SFdiv prec emax.

Definition compare : float -> float -> option comparison := SFcompare.
Definition leb : float -> float -> bool := SFleb.
Definition ltb : float -> float -> bool := SFltb.

(** Conversion of an integer, rounding to nearest even. *)
Definition of_Z (z : Z) : float := binary_normalize prec emax z 0 false.

Definition is_finite (x : float) : bool :=
  match x with
  | S754_zero _ | S754_finite _ _ _ => true
  | S754_infinity _ | S754_nan => false
  end.

Definition succ : float -> float := SFsucc prec emax.

(** A well-formed binary64 datum: canonical mantissa and exponent. *)
Definition valid (x : float) : bool := valid_binary prec emax x.

(** Structural equality (tells [0.0] from [-0.0]). *)
Definition same (x y : float) : bool :=
  match x, y with
  | S754_zero s, S754_zero t => Bool.eqb s t
  | S754_infinity s, S754_infinity t => Bool.eqb s t
  | S754_nan, S754_nan => true
  | S754_finite s m e, S754_finite t n f =>
      Bool.eqb s t && Pos.eqb m n && Z.eqb e f
  | _, _ => false
  end.

(** The float denoted by the decimal literal [digits / 10^scale].  Both
    operands of the division are below [2^53], hence exact, so the
    quotient is rounded once: it is the float nearest to the decimal,
    which is what Python's parser yields for such a literal. *)
Definition literal (digits : Z) (scale : Z) : float :=
  div (of_Z digits) (of_Z (10 ^ scale)).

End B64.

Abbreviation float := B64.float.

(** ** Python numbers, exceptions and operators *)

Module Py.

Inductive num : Type :=
| Int (z : Z)
| Float (f : float).

Inductive exn : Type :=
| ZeroDivisionError
| OverflowError.

Inductive result (A : Type) : Type :=
| Ok (a : A)
| Raise (e : exn).
Arguments Ok {A} a.
Arguments Raise {A} e.

Definition bind {A B : Type} (c : result A) (k : A -> result B) : result B :=
  match c with
  | Ok a => k a
  | Raise e => Raise e
  end.

(** [float(z)]: fails on integers beyond the float range. *)
Definition to_float (a : num) : result float :=
  match a with
  | Float f => Ok f
  | Int z =>
      let f := B64.of_Z z in
      if B64.is_finite f then Ok f else Raise OverflowError
  end.

(** Comparison of an [int] with a [float] is mathematically exact. *)
Definition compare_Z_float (z : Z) (f : float) : option comparison :=
  match f with
  | S754_nan => None
  | S754_infinity s => Some (if s then Gt else Lt)
  | S754_zero _ => Some (z ?= 0)
  | S754_finite s m e =>
      let v := cond_Zopp s (Zpos m) in
      Some match e with
           | Zneg p => (z * 2 ^ Zpos p) ?= v
           | _ => z ?= v * 2 ^ e
           end
  end.

(** [None] when the operands are unordered (a NaN is involved). *)
Definition compare (a b : num) : option comparison :=
  match a, b with
  | Int x, Int y => Some (x ?= y)
  | Float x, Float y => B64.compare x y
  | Int x, Float y => compare_Z_float x y
  | Float x, Int y => option_map CompOpp (compare_Z_float y x)
  end.

Definition eq (a b : num) : bool :=
  match compare a b with Some Eq => true | _ => false end.
Definition gt (a b : num) : bool :=
  match compare a b with Some Gt => true | _ => false end.
Definition ge (a b : num) : bool :=
  match compare a b with Some (Gt | Eq) => true | _ => false end.
Definition lt (a b : num) : bool :=
  match compare a b with Some Lt => true | _ => false end.
Definition le (a b : num) : bool :=
  match compare a b with Some (Lt | Eq) => true | _ => false end.

(** [max(a, b)]: the first argument is kept unless the second is
    strictly greater. *)
Definition max (a b : num) : num := if gt b a then b else a.

Definition arith (fz : Z -> Z -> Z) (ff : float -> float -> float)
           (a b : num) : result num :=
  match a, b with
  | Int x, Int y => Ok (Int (fz x y))
  | _, _ =>
      bind (to_float a) (fun x =>
      bind (to_float b) (fun y => Ok (Float (ff x y))))
  end.

Definition add : num -> num -> result num := arith Z.add B64.add.
Definition sub : num -> num -> result num := arith Z.sub B64.sub.
Definition mul : num -> num -> result num := arith Z.mul B64.mul.

Definition is_zero (x : float) : bool :=
  match x with S754_zero _ => true | _ => false end.

(** [a / b], true division.  A zero divisor raises; the operands of a
    mixed division are converted before the divisor is tested.  Two
    [int] operands are divided as floats, which is exact below [2^53];
    the script never divides two ints. *)
Definition truediv (a b : num) : result num :=
  match a, b with
  | Int _, Int 0 => Raise ZeroDivisionError
  | _, _ =>
      bind (to_float a) (fun x =>
      bind (to_float b) (fun y =>
      if is_zero y then Raise ZeroDivisionError
      else Ok (Float (B64.div x y))))
  end.

End Py.

Notation "x <- c ;; k" := (Py.bind c (fun x => k))
  (at level 61, c at next level, right associativity).

(** ** The inputs of the script *)

(** The values returned by the five input widgets of the first tab. *)
Record inputs : Type := {
  margin_available : float;
  margin_required : float;
  penalty_rate : float;
  consecutive_days : Z;
  monthly_instances : Z
}.

Definition rate_0_5 : float := B64.literal 5 1.
Definition rate_1_0 : float := B64.literal 10 1.
Definition rate_5_0 : float := B64.literal 50 1.

(** [options=[0.5, 1.0, 5.0]] of the rate selector. *)
Definition rate_options : list float := [rate_0_5; rate_1_0; rate_5_0].

(** A float widget declared with [min_value=0.0] yields a finite float
    that compares [>= 0.0]. *)
Definition amount_in_range (x : float) : bool :=
  B64.valid x && B64.is_finite x && B64.leb (B64.of_Z 0) x.

(** The ranges declared by the widgets: [min_value=0.0] for both margins,
    one of the three options for the rate, [0..10] for the days and
    [0..30] for the instances. *)
Definition in_range (i : inputs) : bool :=
  amount_in_range (margin_available i)
  && amount_in_range (margin_required i)
  && existsb (B64.same (penalty_rate i)) rate_options
  && (0 <=? consecutive_days i) && (consecutive_days i <=? 10)
  && (0 <=? monthly_instances i) && (monthly_instances i <=? 30).

(** ** The analysis *)

(** Which condition made the script raise the rate (the text of its
    warning). *)
Inductive escalation : Type :=
| consecutive_violations
| multiple_monthly_instances.

(** An entry of the list [reasons], with the number it prints. *)
Inductive reason : Type :=
| by_amount (shortfall : Py.num)
| by_percentage (shortfall_percentage : Py.num).

Record breakdown : Type := {
  penalty_on_shortfall : Py.num;
  gst_on_penalty : Py.num;
  total_penalty : Py.num;
  reasons : list reason
}.

(** The three cards of the status section. *)
Inductive status : Type :=
| Safe
| WithinLimits
| PenaltyApplicable (b : breakdown).

Record analysis : Type := {
  shortfall : Py.num;
  shortfall_percentage : Py.num;
  is_penalty_by_amount : bool;
  is_penalty_by_percentage : bool;
  is_penalty_applicable : bool;
  effective_penalty_rate : Py.num;
  warning : option escalation;
  outcome : status
}.

Definition gst_rate : float := B64.literal 18 2.

(** Lines 134-135. *)
Definition compute_shortfall (i : inputs) : Py.result Py.num :=
  d <- Py.sub (Py.Float (margin_required i)) (Py.Float (margin_available i)) ;;
  Py.Ok (Py.max (Py.Int 0) d).

Definition compute_percentage (i : inputs) (shortfall : Py.num)
  : Py.result Py.num :=
  if Py.gt (Py.Float (margin_required i)) (Py.Int 0) then
    q <- Py.truediv shortfall (Py.Float (margin_required i)) ;;
    Py.mul q (Py.Int 100)
  else Py.Ok (Py.Int 0).

(** Lines 170-173. *)
Definition escalated (i : inputs) : bool :=
  (consecutive_days i >? 3) || (monthly_instances i >? 5).

Definition compute_rate (i : inputs) : Py.num :=
  if escalated i then Py.Float rate_5_0 else Py.Float (penalty_rate i).

Definition compute_warning (i : inputs) : option escalation :=
  if escalated i then
    Some (if consecutive_days i >? 3 then consecutive_violations
          else multiple_monthly_instances)
  else None.

(** Lines 197-206. *)
Definition compute_breakdown (rate shortfall pct : Py.num)
           (amount percentage : bool) : Py.result breakdown :=
  r <- Py.truediv rate (Py.Int 100) ;;
  penalty <- Py.mul r shortfall ;;
  gst <- Py.mul penalty (Py.Float gst_rate) ;;
  total <- Py.add penalty gst ;;
  Py.Ok {| penalty_on_shortfall := penalty;
           gst_on_penalty := gst;
           total_penalty := total;
           reasons := (if amount then [by_amount shortfall] else [])
                      ++ (if percentage then [by_percentage pct] else []) |}.

(** Lines 134-206: the whole computation of the first tab. *)
Definition analyse (i : inputs) : Py.result analysis :=
  shortfall <- compute_shortfall i ;;
  pct <- compute_percentage i shortfall ;;
  let amount := Py.ge shortfall (Py.Int 100000) in
  let percentage := Py.ge pct (Py.Int 10) in
  let applicable := amount || percentage in
  let rate := compute_rate i in
  out <- (if Py.eq shortfall (Py.Int 0) then Py.Ok Safe
          else if negb applicable then Py.Ok WithinLimits
          else b <- compute_breakdown rate shortfall pct amount percentage ;;
               Py.Ok (PenaltyApplicable b)) ;;
  Py.Ok {| shortfall := shortfall;
           shortfall_percentage := pct;
           is_penalty_by_amount := amount;
           is_penalty_by_percentage := percentage;
           is_penalty_applicable := applicable;
           effective_penalty_rate := rate;
           warning := compute_warning i;
           outcome := out |}.

(** ** Fixed-point display *)

(** [n / d] rounded to the nearest integer, ties to even, for [0 <= n]
    and [0 < d]. *)
Definition round_half_even (n d : Z) : Z :=
  let q := n / d in
  match 2 * (n mod d) ?= d with
  | Lt => q
  | Eq => if Z.even q then q else q + 1
  | Gt => q + 1
  end.

(** The digits printed by the format spec [.kf]: the integer nearest to
    [x * 10^k], ties to even, taken on the exact value of [x]. *)
Definition fixed (k : Z) (x : Py.num) : option Z :=
  match x with
  | Py.Int z => Some (z * 10 ^ k)
  | Py.Float (S754_zero _) => Some 0
  | Py.Float (S754_finite s m e) =>
      let n := Zpos m * 10 ^ k in
      Some (cond_Zopp s match e with
                        | Zneg p => round_half_even n (2 ^ Zpos p)
                        | _ => n * 2 ^ e
                        end)
  | Py.Float _ => None
  end.

(** ** Concrete inputs *)

Definition amounts (required available : float) (rate : float)
           (days instances : Z) : inputs :=
  {| margin_available := available;
     margin_required := required;
     penalty_rate := rate;
     consecutive_days := days;
     monthly_instances := instances |}.

(** The initial values of the widgets: the worked scenario. *)
Definition defaults : inputs :=
  amounts (B64.literal 536168921 2) (B64.literal 36857889 2) rate_1_0 0 0.

Definition boundary_both : inputs :=
  amounts (B64.of_Z 100000) (B64.of_Z 0) rate_1_0 0 0.

Definition boundary_within : inputs :=
  amounts (B64.of_Z 1000000) (B64.of_Z 910000) rate_1_0 4 0.

Definition escalated_minor : inputs :=
  amounts (B64.of_Z 1000000) (B64.of_Z 0) rate_0_5 4 0.

Definition covered : inputs :=
  amounts (B64.of_Z 100) (B64.of_Z 200) rate_1_0 0 0.

Definition inexact_total : inputs :=
  amounts (B64.literal 12345678 2) (B64.of_Z 0) rate_5_0 0 0.

(** ** Definitions used by the proofs *)

(** The weight a location adds on top of the truncated mantissa. *)
Definition loc_weight (l : location) : Z :=
  match l with
  | loc_Exact => 0
  | loc_Inexact _ => 1
  end.

(** What [k] right shifts preserve: the mantissa stays non-negative and,
    together with its location, below every bound the original was
    below. *)
Definition shr_inv (m0 : Z) (l0 : location) (k : Z) (r : shr_record) : Prop :=
  0 <= shr_m r
  /\ forall X, m0 + loc_weight l0 <= X * 2 ^ k ->
               shr_m r + loc_weight (loc_of_shr_record r) <= X.

(** [r] is a non-negative finite float not above [mx * 2^ex]. *)
Definition below (mx : positive) (ex : Z) (r : spec_float) : Prop :=
  match r with
  | S754_zero s => s = false
  | S754_finite s m e =>
      s = false /\ e <= ex /\ Zpos m <= Zpos mx * 2 ^ (ex - e)
  | S754_infinity _ | S754_nan => False
  end.

Definition finite_pos (m : positive) (e : Z) : float := S754_finite false m e.

Definition one_m : positive := 4503599627370496.
Definition hundred_m : positive := 7036874417766400.

Definition float_of_rate (i : inputs) : float :=
  if escalated i then rate_5_0 else penalty_rate i.

(** The percentage the script computes when the shortfall is [0]. *)
Definition zero_percentage (i : inputs) : Py.num :=
  if Py.gt (Py.Float (margin_required i)) (Py.Int 0)
  then Py.Float (S754_zero false) else Py.Int 0.

Definition safe_analysis (i : inputs) : analysis :=
  {| shortfall := Py.Int 0;
     shortfall_percentage := zero_percentage i;
     is_penalty_by_amount := false;
     is_penalty_by_percentage := false;
     is_penalty_applicable := false;
     effective_penalty_rate := compute_rate i;
     warning := compute_warning i;
     outcome := Safe |}.

Definition breakdown_of (rate d pct : float) (amount percentage : bool)
  : breakdown :=
  let penalty := B64.mul (B64.div rate (B64.of_Z 100)) d in
  let gst := B64.mul penalty gst_rate in
  {| penalty_on_shortfall := Py.Float penalty;
     gst_on_penalty := Py.Float gst;
     total_penalty := Py.Float (B64.add penalty gst);
     reasons := (if amount then [by_amount (Py.Float d)] else [])
                ++ (if percentage then [by_percentage (Py.Float pct)]
                    else []) |}.

Definition short_analysis (i : inputs) (d : float) : analysis :=
  let pct := B64.mul (B64.div d (margin_required i)) (B64.of_Z 100) in
  let amount := Py.ge (Py.Float d) (Py.Int 100000) in
  let percentage := Py.ge (Py.Float pct) (Py.Int 10) in
  {| shortfall := Py.Float d;
     shortfall_percentage := Py.Float pct;
     is_penalty_by_amount := amount;
     is_penalty_by_percentage := percentage;
     is_penalty_applicable := amount || percentage;
     effective_penalty_rate := compute_rate i;
     warning := compute_warning i;
     outcome := if negb (amount || percentage) then WithinLimits
                else PenaltyApplicable
                       (breakdown_of (float_of_rate i) d pct
                                     amount percentage) |}.

Definition difference (i : inputs) : float :=
  B64.sub (margin_required i) (margin_available i).

(** [r] is a positive float, or [+inf], that compares not below the
    canonical float [mx * 2^ex]. *)
Definition above (mx : positive) (ex : Z) (r : spec_float) : Prop :=
  match r with
  | S754_finite s m e =>
      s = false /\ (ex < e \/ (e = ex /\ Zpos mx <= Zpos m))
  | S754_infinity s => s = false
  | S754_zero _ | S754_nan => False
  end.

Definition big_m : positive := 4503599627370496.

(** A number the script may print as an amount: not NaN, not infinite and
    not negative. *)
Definition finite_nonneg (x : Py.num) : bool :=
  match x with
  | Py.Int z => 0 <=? z
  | Py.Float f => B64.is_finite f && Py.le (Py.Int 0) x
  end.

(** ** The metrics of the first tab *)

(** The [delta] of the "Shortfall Amount" metric (lines 145-150): the
    percentage with two decimals, or the text "No shortfall". *)
Inductive shortfall_delta : Type :=
| minus_percentage (digits : option Z)
| no_shortfall.

(** The [delta] and [delta_color] of the "Shortfall %" metric
    (lines 157-162). *)
Inductive threshold_delta : Type :=
| above_threshold
| below_threshold.

Inductive delta_color : Type :=
| inverse
| normal.

Record metrics : Type := {
  shortfall_amount_delta : shortfall_delta;
  shortfall_pct_delta : threshold_delta;
  shortfall_pct_color : delta_color
}.

Definition compute_metrics (shortfall shortfall_percentage : Py.num)
  : metrics :=
  {| shortfall_amount_delta :=
       if Py.gt shortfall (Py.Int 0)
       then minus_percentage (fixed 2 shortfall_percentage)
       else no_shortfall;
     shortfall_pct_delta :=
       if Py.ge shortfall_percentage (Py.Int 10)
       then above_threshold else below_threshold;
     shortfall_pct_color :=
       if Py.ge shortfall_percentage (Py.Int 10)
       then inverse else normal |}.

Definition display_metrics (a : analysis) : metrics :=
  compute_metrics (shortfall a) (shortfall_percentage a).

(** ** The examples of the second tab *)

Record example : Type := {
  example_shortfall : Py.num;
  example_pct : Py.num;
  example_penalty : Py.num;
  example_gst : Py.num;
  example_total : Py.num
}.

(** Lines 292-293 and 324-326 (and again 307-308 and 328-330): the two
    blocks differ only in the required margin.  There is no [max] and no
    guard on the divisor here, and the rate is the literal [1.0]. *)
Definition compute_example (required available : float)
  : Py.result example :=
  shortfall <- Py.sub (Py.Float required) (Py.Float available) ;;
  q <- Py.truediv shortfall (Py.Float required) ;;
  pct <- Py.mul q (Py.Int 100) ;;
  r <- Py.truediv (Py.Float rate_1_0) (Py.Int 100) ;;
  penalty <- Py.mul r shortfall ;;
  gst <- Py.mul penalty (Py.Float gst_rate) ;;
  total <- Py.add penalty gst ;;
  Py.Ok {| example_shortfall := shortfall;
           example_pct := pct;
           example_penalty := penalty;
           example_gst := gst;
           example_total := total |}.

Definition example_1 : Py.result example :=
  compute_example (B64.literal 536168921 2) (B64.literal 36857889 2).

Definition example_2 : Py.result example :=
  compute_example (B64.literal 516331705 2) (B64.literal 36857889 2).

(** Line 332. *)
Definition grand_total : Py.result Py.num :=
  e1 <- example_1 ;;
  e2 <- example_2 ;;
  Py.add (example_total e1) (example_total e2).

(** ** Further concrete inputs *)

(** A required margin one unit in the last place above the available
    one. *)
Definition hairline : inputs :=
  amounts (B64.succ (B64.of_Z 1)) (B64.of_Z 1) rate_1_0 0 0.

(** Covered margins, the rate [5.0] already chosen, and both escalation
    conditions. *)
Definition doubly_escalated : inputs :=
  amounts (B64.of_Z 100) (B64.of_Z 200) rate_5_0 4 6.

Definition boundary_within_plain : inputs :=
  amounts (B64.of_Z 1000000) (B64.of_Z 910000) rate_0_5 0 0.

(** The margins of the second example of the second tab. *)
Definition second_example : inputs :=
  amounts (B64.literal 516331705 2) (B64.literal 36857889 2) rate_1_0 0 0.

(** A required margin below the amount threshold, with nothing
    available. *)
Definition small_requirement : inputs :=
  amounts (B64.of_Z 50000) (B64.of_Z 0) rate_1_0 0 0.

(** * Rounding never exceeds a representable bound

    The facts on [SpecFloat]'s rounding that the properties of the script
    rest on.  They are stated on integers: a finite float [m * 2^e] is
    below the float [mx * 2^ex] when [e <= ex] and
    [m <= mx * 2^(ex - e)]. *)

Section Rounding.

Variables prec emax : Z.

Lemma digits2_pos_bounds (p : positive) :
  2 ^ (Zpos (digits2_pos p) - 1) <= Zpos p < 2 ^ Zpos (digits2_pos p).
Proof.
  induction p as [p IH | p IH | ]; cbn [digits2_pos].
  - rewrite Pos2Z.inj_succ, Z.pow_succ_r by lia.
    replace (Z.succ (Zpos (digits2_pos p)) - 1)
      with (Z.succ (Zpos (digits2_pos p) - 1)) by lia.
    rewrite Z.pow_succ_r by lia. lia.
  - rewrite Pos2Z.inj_succ, Z.pow_succ_r by lia.
    replace (Z.succ (Zpos (digits2_pos p)) - 1)
      with (Z.succ (Zpos (digits2_pos p) - 1)) by lia.
    rewrite Z.pow_succ_r by lia. lia.
  - cbn. lia.
Qed.

Lemma iter_xO_spec (m d : positive) :
  Zpos (Pos.iter xO m d) = Zpos m * 2 ^ Zpos d.
Proof.
  induction d as [ | d IH] using Pos.peano_ind.
  - cbn. lia.
  - rewrite Pos.iter_succ, Pos2Z.inj_succ, Z.pow_succ_r by lia.
    rewrite Pos2Z.inj_xO, IH. lia.
Qed.

Lemma shl_align_spec (mx : positive) (ex ex' : Z) :
  snd (shl_align mx ex ex') = Z.min ex ex'
  /\ Zpos (fst (shl_align mx ex ex'))
     = Zpos mx * 2 ^ (ex - snd (shl_align mx ex ex')).
Proof.
  unfold shl_align.
  destruct (ex' - ex) as [ | d | d] eqn:E; cbn [fst snd].
  - split; [lia | ]. rewrite Z.sub_diag. cbn. lia.
  - split; [lia | ]. rewrite Z.sub_diag. cbn. lia.
  - split; [lia | ]. rewrite iter_xO_spec.
    replace (ex - ex') with (Zpos d) by lia. reflexivity.
Qed.

Lemma loc_of_shr_record_of_loc (m : Z) (l : location) :
  loc_of_shr_record (shr_record_of_loc m l) = l.
Proof. destruct l as [ | [ | | ]]; reflexivity. Qed.

Lemma shr_m_of_loc (m : Z) (l : location) :
  shr_m (shr_record_of_loc m l) = m.
Proof. destruct l as [ | [ | | ]]; reflexivity. Qed.

Lemma shr_inv_init (m0 : Z) (l0 : location) :
  0 <= m0 -> shr_inv m0 l0 0 (shr_record_of_loc m0 l0).
Proof.
  intros Hm. split.
  - now rewrite shr_m_of_loc.
  - intros X HX. rewrite shr_m_of_loc, loc_of_shr_record_of_loc.
    rewrite Z.pow_0_r in HX. lia.
Qed.

Lemma shr_inv_step (m0 : Z) (l0 : location) (k : Z) (r : shr_record) :
  0 <= k -> shr_inv m0 l0 k r -> shr_inv m0 l0 (k + 1) (shr_1 r).
Proof.
  intros Hk [Hpos Hle].
  assert (Hstep : forall X, m0 + loc_weight l0 <= X * 2 ^ (k + 1) ->
                shr_m r + loc_weight (loc_of_shr_record r) <= 2 * X).
  { intros X HX. apply Hle. rewrite Z.pow_add_r in HX by lia.
    rewrite Z.pow_1_r in HX. lia. }
  clear Hle. destruct r as [m r s]. cbn [shr_m] in *.
  split.
  - destruct m as [ | [p | p | ] | p]; cbn [shr_1 shr_m]; lia.
  - intros X HX. specialize (Hstep X HX).
    destruct m as [ | [p | p | ] | p]; destruct r, s;
      cbn [shr_1 shr_m loc_of_shr_record loc_weight orb] in Hstep |- *;
      lia.
Qed.

Lemma iter_pos_inv {A : Type} (f : A -> A) (P : Z -> A -> Prop) :
  (forall k x, 0 <= k -> P k x -> P (k + 1) (f x)) ->
  forall p k x, 0 <= k -> P k x -> P (k + Zpos p) (iter_pos f p x).
Proof.
  intros Hf. induction p as [p IH | p IH | ]; intros k x Hk Hx;
    cbn [iter_pos].
  - replace (k + Zpos p~1) with (k + 1 + Zpos p + Zpos p) by lia.
    apply IH; [lia | ]. apply IH; [lia | ]. now apply Hf.
  - replace (k + Zpos p~0) with (k + Zpos p + Zpos p) by lia.
    apply IH; [lia | ]. now apply IH.
  - now apply Hf.
Qed.

Lemma shr_inv_iter (m0 : Z) (l0 : location) (p : positive) :
  0 <= m0 ->
  shr_inv m0 l0 (Zpos p) (iter_pos shr_1 p (shr_record_of_loc m0 l0)).
Proof.
  intros Hm.
  apply (iter_pos_inv shr_1 (shr_inv m0 l0) (shr_inv_step m0 l0) p 0);
    [lia | now apply shr_inv_init].
Qed.

Lemma fexp_le (a b : Z) : a <= b -> fexp prec emax a <= fexp prec emax b.
Proof. unfold fexp. lia. Qed.

Lemma Zdigits2_le (m e : Z) (mx : positive) (ex : Z) :
  0 <= m -> e <= ex -> m <= Zpos mx * 2 ^ (ex - e) ->
  Zdigits2 m + e <= Zpos (digits2_pos mx) + ex.
Proof.
  intros Hm He Hle. destruct m as [ | p | p]; cbn [Zdigits2]; [lia | | lia].
  pose proof (digits2_pos_bounds p) as [Hp _].
  pose proof (digits2_pos_bounds mx) as [_ Hx].
  assert (H2 : 0 < 2 ^ (ex - e)) by (apply Z.pow_pos_nonneg; lia).
  assert (Hlt : 2 ^ (Zpos (digits2_pos p) - 1)
                < 2 ^ (Zpos (digits2_pos mx) + (ex - e))).
  { rewrite Z.pow_add_r by lia. nia. }
  apply Z.pow_lt_mono_r_iff in Hlt; lia.
Qed.

(** One call of [shr_fexp] keeps a mantissa and its location below a
    canonical bound, and does not raise the exponent above the bound's. *)
Lemma shr_fexp_le (m e : Z) (l : location) (mx : positive) (ex : Z) :
  canonical_mantissa prec emax mx ex = true ->
  0 <= m -> e <= ex ->
  m + loc_weight l <= Zpos mx * 2 ^ (ex - e) ->
  0 <= shr_m (fst (shr_fexp prec emax m e l))
  /\ snd (shr_fexp prec emax m e l) <= ex
  /\ shr_m (fst (shr_fexp prec emax m e l))
     + loc_weight (loc_of_shr_record (fst (shr_fexp prec emax m e l)))
     <= Zpos mx * 2 ^ (ex - snd (shr_fexp prec emax m e l)).
Proof.
  intros Hcan Hm He Hle.
  assert (Hw : 0 <= loc_weight l) by (destruct l; cbn; lia).
  assert (Hfe : fexp prec emax (Zdigits2 m + e) <= ex).
  { unfold canonical_mantissa in Hcan. apply Z.eqb_eq in Hcan.
    rewrite <- Hcan. apply fexp_le.
    apply Zdigits2_le; lia. }
  unfold shr_fexp, shr.
  destruct (fexp prec emax (Zdigits2 m + e) - e) as [ | n | n] eqn:En;
    cbn [fst snd].
  - rewrite shr_m_of_loc, loc_of_shr_record_of_loc. lia.
  - destruct (shr_inv_iter m l n Hm) as [Hpos Hbound].
    split; [exact Hpos | ]. split; [lia | ].
    apply Hbound.
    replace (ex - e) with ((ex - (e + Zpos n)) + Zpos n) in Hle by lia.
    rewrite Z.pow_add_r in Hle by lia. lia.
  - rewrite shr_m_of_loc, loc_of_shr_record_of_loc. lia.
Qed.

Lemma round_nearest_even_le (m : Z) (l : location) (X : Z) :
  0 <= m -> m + loc_weight l <= X ->
  0 <= round_nearest_even m l <= X.
Proof.
  intros Hm Hle. unfold round_nearest_even.
  destruct l as [ | [ | | ]]; cbn [loc_weight] in Hle;
    try destruct (Z.even m); lia.
Qed.

(** Rounding to nearest is monotone against representable bounds: what is
    not above a float rounds to a float not above it. *)
Lemma binary_round_aux_below (m e : Z) (l : location)
      (mx : positive) (ex : Z) :
  bounded prec emax mx ex = true ->
  0 <= m -> e <= ex ->
  m + loc_weight l <= Zpos mx * 2 ^ (ex - e) ->
  below mx ex (binary_round_aux prec emax false m e l).
Proof.
  intros Hb Hm He Hle.
  unfold bounded in Hb. apply andb_true_iff in Hb as [Hcan Hmax].
  apply Z.leb_le in Hmax.
  pose proof (shr_fexp_le m e l mx ex Hcan Hm He Hle) as (H1 & H2 & H3).
  unfold binary_round_aux.
  destruct (shr_fexp prec emax m e l) as [r1 e1]. cbn [fst snd] in *.
  pose proof (round_nearest_even_le _ _ _ H1 H3) as [H4 H5].
  assert (H6 : round_nearest_even (shr_m r1) (loc_of_shr_record r1)
               + loc_weight loc_Exact <= Zpos mx * 2 ^ (ex - e1))
    by (cbn [loc_weight]; lia).
  pose proof (shr_fexp_le _ e1 loc_Exact mx ex Hcan H4 H2 H6)
    as (H7 & H8 & H9).
  destruct (shr_fexp prec emax _ e1 loc_Exact) as [r2 e2].
  cbn [fst snd] in *.
  assert (Hw : 0 <= loc_weight (loc_of_shr_record r2))
    by (destruct (loc_of_shr_record r2); cbn; lia).
  destruct (shr_m r2) as [ | m2 | m2]; cbn [below]; [reflexivity | | lia].
  replace (e2 <=? emax - prec) with true by (symmetry; apply Z.leb_le; lia).
  cbn [below]. repeat split; lia.
Qed.

End Rounding.

(** ** Binary64 subtraction, division and multiplication against bounds *)

Lemma of_Z_0 : B64.of_Z 0 = S754_zero false.
Proof. reflexivity. Qed.

Lemma of_Z_100 : B64.of_Z 100 = finite_pos hundred_m (-46).
Proof. vm_compute. reflexivity. Qed.

Lemma canonical_bounds (m : positive) (e : Z) :
  canonical_mantissa B64.prec B64.emax m e = true ->
  Zpos m < 2 ^ 53 /\ (-1074 < e -> 2 ^ 52 <= Zpos m) /\ -1074 <= e.
Proof.
  unfold canonical_mantissa, fexp, emin, B64.prec, B64.emax.
  intros H. apply Z.eqb_eq in H.
  pose proof (digits2_pos_bounds m) as [Hlo Hhi].
  assert (Hd : Zpos (digits2_pos m) <= 53) by lia.
  split; [ | split; [ | lia]].
  - apply Z.lt_le_trans with (1 := Hhi). apply Z.pow_le_mono_r; lia.
  - intros He. replace (Zpos (digits2_pos m)) with 53 in Hlo by lia.
    exact Hlo.
Qed.

Lemma amount_cases (x : float) :
  amount_in_range x = true ->
  (exists s, x = S754_zero s)
  \/ (exists m e, x = finite_pos m e
                  /\ bounded B64.prec B64.emax m e = true).
Proof.
  unfold amount_in_range. intros H.
  apply andb_true_iff in H as [H Hle]. apply andb_true_iff in H as [Hv Hf].
  destruct x as [s | s | | s m e]; try discriminate.
  - left. now exists s.
  - right. exists m, e. split; [ | exact Hv].
    destruct s; [discriminate | reflexivity].
Qed.

Lemma compare_zero_finite (s : bool) (m : positive) (e : Z) :
  Py.compare_Z_float 0 (S754_finite s m e) = Some (if s then Gt else Lt).
Proof.
  unfold Py.compare_Z_float. f_equal.
  assert (Hp : forall k, 0 < 2 ^ Zpos k) by (intros k; apply Z.pow_pos_nonneg; lia).
  destruct e as [ | p | p], s; cbn [cond_Zopp Z.opp].
  - apply Z.compare_gt_iff. lia.
  - apply Z.compare_lt_iff. lia.
  - apply Z.compare_gt_iff. specialize (Hp p). nia.
  - apply Z.compare_lt_iff. specialize (Hp p). nia.
  - apply Z.compare_gt_iff. lia.
  - apply Z.compare_lt_iff. lia.
Qed.

Lemma gt_zero_finite (s : bool) (m : positive) (e : Z) :
  Py.gt (Py.Float (S754_finite s m e)) (Py.Int 0) = negb s.
Proof.
  unfold Py.gt, Py.compare. rewrite compare_zero_finite. now destruct s.
Qed.

Lemma gt_zero_round_negative (m e : Z) (l : location) :
  Py.gt (Py.Float (binary_round_aux B64.prec B64.emax true m e l)) (Py.Int 0)
  = false.
Proof.
  unfold binary_round_aux.
  destruct (shr_fexp B64.prec B64.emax m e l) as [r1 e1].
  destruct (shr_fexp B64.prec B64.emax _ e1 loc_Exact) as [r2 e2].
  destruct (shr_m r2) as [ | m2 | m2]; try reflexivity.
  destruct (e2 <=? B64.emax - B64.prec); [ | reflexivity].
  now rewrite gt_zero_finite.
Qed.

Lemma gt_zero_normalize_nonpos (d e : Z) :
  d <= 0 ->
  Py.gt (Py.Float (binary_normalize B64.prec B64.emax d e false)) (Py.Int 0)
  = false.
Proof.
  intros Hd. destruct d as [ | p | p]; [reflexivity | lia | ].
  unfold binary_normalize, binary_round.
  destruct (shl_align p e _) as [mz ez]. apply gt_zero_round_negative.
Qed.

Lemma aligned_mantissa (mx : positive) (ex ey : Z) :
  Zpos (fst (shl_align mx ex (Z.min ex ey)))
  = Zpos mx * 2 ^ (ex - Z.min ex ey).
Proof.
  destruct (shl_align_spec mx ex (Z.min ex ey)) as [H1 H2].
  rewrite H2, H1. f_equal. f_equal. lia.
Qed.

(** The ordering of canonical floats agrees with that of their aligned
    mantissas. *)
Lemma aligned_le (mx my : positive) (ex ey : Z) :
  canonical_mantissa B64.prec B64.emax mx ex = true ->
  canonical_mantissa B64.prec B64.emax my ey = true ->
  B64.leb (finite_pos mx ex) (finite_pos my ey) = true ->
  Zpos mx * 2 ^ (ex - Z.min ex ey) <= Zpos my * 2 ^ (ey - Z.min ex ey).
Proof.
  intros Hx Hy Hle.
  apply canonical_bounds in Hx as (Hx1 & Hx2 & Hx3).
  apply canonical_bounds in Hy as (Hy1 & Hy2 & Hy3).
  unfold B64.leb, SFleb, finite_pos, SFcompare in Hle.
  destruct (Z.compare_spec ex ey) as [Heq | Hlt | Hgt].
  - subst ey. rewrite Z.min_id, Z.sub_diag, Z.pow_0_r.
    change (Pos.compare_cont Eq mx my) with (mx ?= my)%positive in Hle.
    destruct (Pos.compare_spec mx my); try discriminate; lia.
  - replace (Z.min ex ey) with ex by lia.
    rewrite Z.sub_diag, Z.pow_0_r.
    assert (H2 : 2 ^ 1 <= 2 ^ (ey - ex)) by (apply Z.pow_le_mono_r; lia).
    change (2 ^ 1) with 2 in H2.
    specialize (Hy2 ltac:(lia)).
    change (2 ^ 53) with (2 * 2 ^ 52) in Hx1. nia.
  - discriminate.
Qed.

(** [x - y] for two amounts [x <= y] is not positive. *)
Lemma sub_not_positive (x y : float) :
  amount_in_range x = true -> amount_in_range y = true ->
  B64.leb x y = true ->
  Py.gt (Py.Float (B64.sub x y)) (Py.Int 0) = false.
Proof.
  intros Hx Hy Hle.
  destruct (amount_cases x Hx) as [[sx ->] | (mx & ex & -> & Hbx)];
    destruct (amount_cases y Hy) as [[sy ->] | (my & ey & -> & Hby)].
  - destruct sx, sy; reflexivity.
  - unfold B64.sub, SFsub, finite_pos. now rewrite gt_zero_finite.
  - discriminate.
  - unfold B64.sub, SFsub, finite_pos. cbn [cond_Zopp].
    apply gt_zero_normalize_nonpos.
    apply andb_true_iff in Hbx as [Hcx _].
    apply andb_true_iff in Hby as [Hcy _].
    pose proof (aligned_le mx my ex ey Hcx Hcy Hle) as H.
    rewrite (aligned_mantissa mx ex ey).
    rewrite (Z.min_comm ex ey) at 2. rewrite (aligned_mantissa my ey ex).
    rewrite (Z.min_comm ey ex). lia.
Qed.

(** A positive difference of two amounts is not above the minuend. *)
Lemma sub_below (x y : float) :
  amount_in_range x = true -> amount_in_range y = true ->
  Py.gt (Py.Float (B64.sub x y)) (Py.Int 0) = true ->
  exists mx ex,
    x = finite_pos mx ex
    /\ bounded B64.prec B64.emax mx ex = true
    /\ below mx ex (B64.sub x y).
Proof.
  intros Hx Hy Hgt.
  destruct (amount_cases x Hx) as [[sx ->] | (mx & ex & -> & Hbx)];
    destruct (amount_cases y Hy) as [[sy ->] | (my & ey & -> & Hby)].
  - destruct sx, sy; discriminate.
  - unfold B64.sub, SFsub, finite_pos in Hgt.
    rewrite gt_zero_finite in Hgt. discriminate.
  - exists mx, ex. split; [reflexivity | ]. split; [exact Hbx | ].
    cbn. repeat split; try lia. rewrite Z.sub_diag. cbn. lia.
  - exists mx, ex. split; [reflexivity | ]. split; [exact Hbx | ].
    unfold B64.sub, SFsub, finite_pos in Hgt |- *. cbn [cond_Zopp] in Hgt |- *.
    rewrite (aligned_mantissa mx ex ey) in Hgt |- *.
    set (ez := Z.min ex ey) in *.
    set (my' := fst (shl_align my ey ez)) in *.
    destruct (Zpos mx * 2 ^ (ex - ez) - Zpos my') as [ | d | d] eqn:Ed.
    + discriminate.
    + unfold binary_normalize, binary_round.
      destruct (shl_align_spec d ez
                  (fexp B64.prec B64.emax (Zpos (digits2_pos d) + ez)))
        as [H1 H2].
      destruct (shl_align d ez _) as [mz ez']. cbn [fst snd] in H1, H2.
      apply binary_round_aux_below; [exact Hbx | lia | lia | ].
      cbn [loc_weight]. rewrite H2, Z.add_0_r.
      replace (ex - ez') with ((ex - ez) + (ez - ez')) by lia.
      rewrite Z.pow_add_r, Z.mul_assoc by lia.
      apply Z.mul_le_mono_nonneg_r; [apply Z.pow_nonneg; lia | lia].
    + rewrite gt_zero_normalize_nonpos in Hgt by lia. discriminate.
Qed.

Lemma new_location_weight (n r : Z) :
  loc_weight (new_location n r) = if r =? 0 then 0 else 1.
Proof.
  unfold new_location, new_location_even, new_location_odd.
  destruct (Z.even n), (r =? 0); reflexivity.
Qed.

(** The quotient of a float by one that is not smaller is at most [1.0]. *)
Lemma div_below_one (m : positive) (e : Z) (mx : positive) (ex : Z) :
  e <= ex -> Zpos m <= Zpos mx * 2 ^ (ex - e) ->
  below one_m (-52) (B64.div (finite_pos m e) (finite_pos mx ex)).
Proof.
  intros He Hle.
  unfold B64.div, SFdiv, finite_pos, SFdiv_core_binary. cbn [xorb].
  pose proof (Zdigits2_le (Zpos m) e mx ex ltac:(lia) He Hle) as Hd.
  cbn [Zdigits2] in Hd |- *.
  set (e' := Z.min (fexp B64.prec B64.emax
                      (Zpos (digits2_pos m) + e - (Zpos (digits2_pos mx) + ex)))
                   (e - ex)).
  assert (He' : e' <= -53).
  { unfold e', fexp, emin, B64.prec, B64.emax. lia. }
  set (m' := match e - ex - e' with
             | 0 => Zpos m
             | Zpos _ => Z.shiftl (Zpos m) (e - ex - e')
             | Zneg _ => 0
             end).
  assert (Hm' : m' = Zpos m * 2 ^ (e - ex - e')).
  { unfold m'. destruct (e - ex - e') as [ | s | s] eqn:Es.
    - cbn. lia.
    - rewrite Z.shiftl_mul_pow2 by lia. reflexivity.
    - unfold e' in Es. lia. }
  assert (Hbound : m' <= Zpos mx * 2 ^ (- e')).
  { rewrite Hm'. replace (- e') with ((ex - e) + (e - ex - e')) by lia.
    rewrite Z.pow_add_r by (unfold e'; lia).
    rewrite Z.mul_assoc.
    apply Z.mul_le_mono_nonneg_r; [apply Z.pow_nonneg; lia | exact Hle]. }
  assert (Hm'0 : 0 <= m').
  { rewrite Hm'. apply Z.mul_nonneg_nonneg; [lia | apply Z.pow_nonneg; lia]. }
  pose proof (Z_div_mod m' (Zpos mx) ltac:(lia)) as Hdiv.
  destruct (Z.div_eucl m' (Zpos mx)) as [q r]. destruct Hdiv as [Hq Hr].
  assert (Hp : 0 < 2 ^ (- e')) by (apply Z.pow_pos_nonneg; lia).
  apply binary_round_aux_below; [reflexivity | nia | lia | ].
  rewrite new_location_weight.
  change (Zpos one_m) with (2 ^ 52).
  rewrite <- Z.pow_add_r by lia.
  replace (52 + (-52 - e')) with (- e') by lia.
  destruct (Z.eqb_spec r 0); nia.
Qed.

(** A float in [[0, 1]] times [100.0] is at most [100.0]. *)
Lemma mul_hundred_below (q : float) :
  below one_m (-52) q ->
  below hundred_m (-46) (B64.mul q (finite_pos hundred_m (-46))).
Proof.
  destruct q as [s | s | | s mq eq]; cbn [below]; try contradiction.
  - intros ->. reflexivity.
  - intros (-> & He & Hle).
    unfold B64.mul, SFmul, finite_pos. cbn [xorb].
    apply binary_round_aux_below; [reflexivity | lia | lia | ].
    cbn [loc_weight]. rewrite Z.add_0_r, Pos2Z.inj_mul.
    replace (-46 - (eq + -46)) with (- eq) by lia.
    change (Zpos one_m) with (2 ^ 52) in Hle.
    rewrite <- Z.pow_add_r in Hle by lia.
    replace (52 + (-52 - eq)) with (- eq) in Hle by lia.
    rewrite (Z.mul_comm (Zpos mq)).
    apply Z.mul_le_mono_nonneg_l; lia.
Qed.

(** ** The operators on the operands the script gives them *)

Lemma sub_floats (x y : float) :
  Py.sub (Py.Float x) (Py.Float y) = Py.Ok (Py.Float (B64.sub x y)).
Proof. reflexivity. Qed.

Lemma mul_floats (x y : float) :
  Py.mul (Py.Float x) (Py.Float y) = Py.Ok (Py.Float (B64.mul x y)).
Proof. reflexivity. Qed.

Lemma add_floats (x y : float) :
  Py.add (Py.Float x) (Py.Float y) = Py.Ok (Py.Float (B64.add x y)).
Proof. reflexivity. Qed.

Lemma to_float_100 : Py.to_float (Py.Int 100) = Py.Ok (B64.of_Z 100).
Proof. vm_compute. reflexivity. Qed.

Lemma mul_float_100 (q : float) :
  Py.mul (Py.Float q) (Py.Int 100)
  = Py.Ok (Py.Float (B64.mul q (B64.of_Z 100))).
Proof.
  unfold Py.mul, Py.arith. rewrite to_float_100. reflexivity.
Qed.

Lemma truediv_float_100 (r : float) :
  Py.truediv (Py.Float r) (Py.Int 100)
  = Py.Ok (Py.Float (B64.div r (B64.of_Z 100))).
Proof.
  unfold Py.truediv. rewrite to_float_100. reflexivity.
Qed.

Lemma truediv_finite (x : float) (m : positive) (e : Z) :
  Py.truediv (Py.Float x) (Py.Float (finite_pos m e))
  = Py.Ok (Py.Float (B64.div x (finite_pos m e))).
Proof. reflexivity. Qed.

Lemma eq_zero_finite (s : bool) (m : positive) (e : Z) :
  Py.eq (Py.Float (S754_finite s m e)) (Py.Int 0) = false.
Proof.
  unfold Py.eq, Py.compare. rewrite compare_zero_finite. now destruct s.
Qed.

(** ** The analysis of an in-range input *)

Lemma compute_rate_float (i : inputs) :
  compute_rate i = Py.Float (float_of_rate i).
Proof. unfold compute_rate, float_of_rate. now destruct (escalated i). Qed.

Lemma in_range_amounts (i : inputs) :
  in_range i = true ->
  amount_in_range (margin_available i) = true
  /\ amount_in_range (margin_required i) = true.
Proof.
  unfold in_range. intros H.
  do 5 (apply andb_true_iff in H as [H _]).
  apply andb_true_iff in H as [Hav Hreq]. now split.
Qed.

Lemma compute_breakdown_floats (r d pct : float) (a p : bool) :
  compute_breakdown (Py.Float r) (Py.Float d) (Py.Float pct) a p
  = Py.Ok (breakdown_of r d pct a p).
Proof.
  unfold compute_breakdown. rewrite truediv_float_100. reflexivity.
Qed.

(** Without a positive difference the script takes the "safe" path. *)
Lemma analyse_safe (i : inputs) :
  amount_in_range (margin_required i) = true ->
  Py.gt (Py.Float (B64.sub (margin_required i) (margin_available i)))
        (Py.Int 0) = false ->
  analyse i = Py.Ok (safe_analysis i).
Proof.
  intros Hreq Hgt.
  unfold analyse, compute_shortfall. rewrite sub_floats. cbn [Py.bind].
  unfold Py.max. rewrite Hgt.
  unfold safe_analysis, zero_percentage, compute_percentage.
  destruct (amount_cases _ Hreq) as [[s ->] | (mx & ex & -> & _)].
  - destruct s; reflexivity.
  - unfold finite_pos. rewrite gt_zero_finite. reflexivity.
Qed.

(** With a positive difference [d] the shortfall is [d], a finite float
    not above the required margin, which is then positive. *)
Lemma analyse_short (i : inputs) :
  amount_in_range (margin_available i) = true ->
  amount_in_range (margin_required i) = true ->
  Py.gt (Py.Float (B64.sub (margin_required i) (margin_available i)))
        (Py.Int 0) = true ->
  exists (m : positive) (e : Z) (mx : positive) (ex : Z),
    B64.sub (margin_required i) (margin_available i) = finite_pos m e
    /\ margin_required i = finite_pos mx ex
    /\ e <= ex /\ Zpos m <= Zpos mx * 2 ^ (ex - e)
    /\ analyse i = Py.Ok (short_analysis i (finite_pos m e)).
Proof.
  intros Hav Hreq Hgt.
  destruct (sub_below _ _ Hreq Hav Hgt) as (mx & ex & Hmr & _ & Hbelow).
  unfold analyse, compute_shortfall. rewrite sub_floats. cbn [Py.bind].
  unfold Py.max. rewrite Hgt.
  destruct (B64.sub (margin_required i) (margin_available i))
    as [s | s | | s m e]; try contradiction.
  - destruct s; discriminate.
  - destruct Hbelow as (-> & He & Hle).
    exists m, e, mx, ex. repeat split; try assumption.
    unfold compute_percentage, short_analysis. rewrite Hmr.
    unfold finite_pos at 1. rewrite gt_zero_finite. cbn [negb].
    rewrite truediv_finite. cbn [Py.bind]. rewrite mul_float_100.
    cbn [Py.bind]. unfold finite_pos at 3. rewrite eq_zero_finite.
    rewrite compute_rate_float.
    destruct (negb _); [reflexivity | ].
    rewrite compute_breakdown_floats. reflexivity.
Qed.

(** ** Comparisons against the bounds *)

Lemma below_leb (m : positive) (e : Z) (mx : positive) (ex : Z) :
  e <= ex -> Zpos m <= Zpos mx * 2 ^ (ex - e) ->
  Py.le (Py.Float (finite_pos m e)) (Py.Float (finite_pos mx ex)) = true.
Proof.
  intros He Hle. unfold Py.le, Py.compare, B64.compare, finite_pos, SFcompare.
  destruct (Z.compare_spec e ex) as [-> | Hlt | Hgt]; [ | reflexivity | lia].
  rewrite Z.sub_diag, Z.pow_0_r in Hle.
  change (Pos.compare_cont Eq m mx) with (m ?= mx)%positive.
  destruct (Pos.compare_spec m mx); try reflexivity; lia.
Qed.

Lemma zero_le_amount (x : float) :
  amount_in_range x = true -> Py.le (Py.Int 0) (Py.Float x) = true.
Proof.
  intros Hx. destruct (amount_cases x Hx) as [[s ->] | (m & e & -> & _)].
  - reflexivity.
  - unfold Py.le, Py.compare, finite_pos. now rewrite compare_zero_finite.
Qed.

Lemma zero_le_below (mx : positive) (ex : Z) (r : float) :
  below mx ex r -> Py.le (Py.Int 0) (Py.Float r) = true.
Proof.
  destruct r as [s | s | | s m e]; cbn [below]; try contradiction.
  - reflexivity.
  - intros (-> & _). unfold Py.le, Py.compare.
    now rewrite compare_zero_finite.
Qed.

Lemma below_hundred_le (r : float) :
  below hundred_m (-46) r -> Py.le (Py.Float r) (Py.Int 100) = true.
Proof.
  destruct r as [s | s | | s m e]; cbn [below]; try contradiction.
  - reflexivity.
  - intros (-> & He & Hle).
    destruct e as [ | p | p]; try lia.
    unfold Py.le, Py.compare, Py.compare_Z_float.
    cbn [cond_Zopp option_map].
    change (Zpos hundred_m) with (100 * 2 ^ 46) in Hle.
    rewrite <- Z.mul_assoc, <- Z.pow_add_r in Hle by lia.
    replace (46 + (-46 - Zneg p)) with (Zpos p) in Hle by lia.
    destruct (Z.compare_spec (100 * 2 ^ Zpos p) (Zpos m));
      try reflexivity; lia.
Qed.

Lemma lt_not_ge (x c : Py.num) : Py.lt x c = true -> Py.ge x c = false.
Proof.
  unfold Py.lt, Py.ge. now destruct (Py.compare x c) as [[ | | ] | ].
Qed.

Lemma eq_ge (x c : Py.num) : Py.eq x c = true -> Py.ge x c = true.
Proof.
  unfold Py.eq, Py.ge. now destruct (Py.compare x c) as [[ | | ] | ].
Qed.

Lemma same_eq (x y : float) : B64.same x y = true -> x = y.
Proof.
  destruct x as [s | s | | s m e], y as [t | t | | t n f];
    cbn [B64.same]; try discriminate; intros H.
  - now apply Bool.eqb_prop in H as ->.
  - now apply Bool.eqb_prop in H as ->.
  - reflexivity.
  - apply andb_true_iff in H as [H He]. apply andb_true_iff in H as [Hs Hm].
    apply Bool.eqb_prop in Hs as ->. apply Pos.eqb_eq in Hm as ->.
    now apply Z.eqb_eq in He as ->.
Qed.

Lemma ge_leb_amounts (x y : float) :
  amount_in_range x = true -> amount_in_range y = true ->
  Py.ge (Py.Float x) (Py.Float y) = true -> B64.leb y x = true.
Proof.
  intros Hx Hy.
  destruct (amount_cases x Hx) as [[sx ->] | (mx & ex & -> & _)];
    destruct (amount_cases y Hy) as [[sy ->] | (my & ey & -> & _)];
    try (intros H; (reflexivity || discriminate H)).
  unfold Py.ge, Py.compare, B64.compare, B64.leb, SFleb, finite_pos, SFcompare.
  change (Pos.compare_cont Eq mx my) with (mx ?= my)%positive.
  change (Pos.compare_cont Eq my mx) with (my ?= mx)%positive.
  rewrite (Z.compare_antisym ex ey), (Pos.compare_antisym mx my).
  destruct (ex ?= ey); cbn [CompOpp]; try easy.
  destruct (mx ?= my)%positive; cbn [CompOpp]; easy.
Qed.

Lemma mul_comm (x y : float) : B64.mul x y = B64.mul y x.
Proof.
  unfold B64.mul, SFmul.
  destruct x as [s | s | | s m e], y as [t | t | | t n f];
    try reflexivity; try (now rewrite xorb_comm).
  now rewrite xorb_comm, Pos.mul_comm, Z.add_comm.
Qed.

(** * The properties of the specification *)

(** C1: for non-negative margins the shortfall is
    [max(0, margin_required - margin_available)], and it is not above
    [margin_required]. *)
Theorem shortfall_is_clamped_difference (i : inputs) :
  amount_in_range (margin_required i) = true ->
  amount_in_range (margin_available i) = true ->
  exists a d,
    analyse i = Py.Ok a
    /\ Py.sub (Py.Float (margin_required i)) (Py.Float (margin_available i))
       = Py.Ok d
    /\ shortfall a = Py.max (Py.Int 0) d
    /\ Py.le (Py.Int 0) (shortfall a) = true
    /\ Py.le (shortfall a) (Py.Float (margin_required i)) = true.
Proof.
  intros Hreq Hav.
  destruct (Py.gt (Py.Float (difference i)) (Py.Int 0)) eqn:Hgt.
  - destruct (analyse_short i Hav Hreq Hgt)
      as (m & e & mx & ex & Hd & Hm & He & Hle & Ha).
    exists (short_analysis i (finite_pos m e)), (Py.Float (difference i)).
    split; [exact Ha | ]. split; [reflexivity | ].
    cbn [shortfall short_analysis]. split; [ | split].
    + unfold Py.max. rewrite Hgt. unfold difference. now rewrite Hd.
    + unfold Py.le, Py.compare, finite_pos. now rewrite compare_zero_finite.
    + rewrite Hm. now apply below_leb.
  - exists (safe_analysis i), (Py.Float (difference i)).
    split; [now apply analyse_safe | ]. split; [reflexivity | ].
    cbn [shortfall safe_analysis]. split; [ | split].
    + unfold Py.max. now rewrite Hgt.
    + reflexivity.
    + now apply zero_le_amount.
Qed.

(** C2: the amount test is [shortfall >= 100000], the percentage test is
    [shortfall_percentage >= 10], a penalty applies when either holds, and
    the penalty is computed exactly then; equality with a threshold is
    enough. *)
Theorem penalty_applicability (i : inputs) :
  in_range i = true ->
  exists a,
    analyse i = Py.Ok a
    /\ is_penalty_by_amount a = Py.ge (shortfall a) (Py.Int 100000)
    /\ is_penalty_by_percentage a
       = Py.ge (shortfall_percentage a) (Py.Int 10)
    /\ is_penalty_applicable a
       = is_penalty_by_amount a || is_penalty_by_percentage a
    /\ (Py.eq (shortfall a) (Py.Int 100000) = true ->
        is_penalty_applicable a = true)
    /\ (Py.eq (shortfall_percentage a) (Py.Int 10) = true ->
        is_penalty_applicable a = true)
    /\ (is_penalty_applicable a = true <->
        exists b, outcome a = PenaltyApplicable b).
Proof.
  intros Hr. destruct (in_range_amounts i Hr) as [Hav Hreq].
  destruct (Py.gt (Py.Float (difference i)) (Py.Int 0)) eqn:Hgt.
  - destruct (analyse_short i Hav Hreq Hgt) as (m & e & mx & ex & _ & _ & _ & _ & Ha).
    exists (short_analysis i (finite_pos m e)).
    split; [exact Ha | ]. cbn [short_analysis shortfall shortfall_percentage
      is_penalty_by_amount is_penalty_by_percentage is_penalty_applicable
      outcome].
    repeat split; try reflexivity.
    + intros H. apply eq_ge in H. now rewrite H.
    + intros H. apply eq_ge in H. rewrite H. apply orb_true_r.
    + intros H. rewrite H. cbn [negb]. eauto.
    + intros [b Hb]. destruct (_ || _); [reflexivity | discriminate].
  - exists (safe_analysis i). split; [now apply analyse_safe | ].
    cbn [safe_analysis shortfall shortfall_percentage
      is_penalty_by_amount is_penalty_by_percentage is_penalty_applicable
      outcome].
    unfold zero_percentage.
    destruct (Py.gt (Py.Float (margin_required i)) (Py.Int 0));
      repeat split; try reflexivity; try discriminate;
      intros [b Hb]; discriminate.
Qed.

(** C3: the percentage is [(shortfall / margin_required) * 100] when
    [margin_required > 0] and [0] when [margin_required = 0]; no in-range
    input raises (in particular no division by zero), and the percentage
    lies in [[0, 100]]. *)
Theorem shortfall_percentage_range (i : inputs) :
  in_range i = true ->
  exists a,
    analyse i = Py.Ok a
    /\ (Py.gt (Py.Float (margin_required i)) (Py.Int 0) = true ->
        (q <- Py.truediv (shortfall a) (Py.Float (margin_required i)) ;;
         Py.mul q (Py.Int 100)) = Py.Ok (shortfall_percentage a))
    /\ (Py.eq (Py.Float (margin_required i)) (Py.Int 0) = true ->
        shortfall_percentage a = Py.Int 0)
    /\ Py.le (Py.Int 0) (shortfall_percentage a) = true
    /\ Py.le (shortfall_percentage a) (Py.Int 100) = true.
Proof.
  intros Hr. destruct (in_range_amounts i Hr) as [Hav Hreq].
  destruct (Py.gt (Py.Float (difference i)) (Py.Int 0)) eqn:Hgt.
  - destruct (analyse_short i Hav Hreq Hgt)
      as (m & e & mx & ex & _ & Hm & He & Hle & Ha).
    exists (short_analysis i (finite_pos m e)).
    split; [exact Ha | ].
    cbn [short_analysis shortfall shortfall_percentage].
    pose proof (mul_hundred_below _ (div_below_one m e mx ex He Hle)) as Hb.
    rewrite Hm, of_Z_100.
    split; [ | split; [ | split]].
    + intros _. rewrite truediv_finite. cbn [Py.bind].
      now rewrite mul_float_100, of_Z_100.
    + unfold finite_pos at 1. rewrite eq_zero_finite. discriminate.
    + now apply zero_le_below with (1 := Hb).
    + now apply below_hundred_le.
  - exists (safe_analysis i). split; [now apply analyse_safe | ].
    cbn [safe_analysis shortfall shortfall_percentage].
    unfold zero_percentage.
    destruct (amount_cases _ Hreq) as [[s ->] | (mx & ex & -> & _)].
    + destruct s; repeat split; try reflexivity; discriminate.
    + unfold finite_pos. rewrite gt_zero_finite, eq_zero_finite.
      repeat split; try reflexivity; discriminate.
Qed.

Lemma analyse_rate (i : inputs) :
  in_range i = true ->
  exists a, analyse i = Py.Ok a /\ effective_penalty_rate a = compute_rate i.
Proof.
  intros Hr. destruct (in_range_amounts i Hr) as [Hav Hreq].
  destruct (Py.gt (Py.Float (difference i)) (Py.Int 0)) eqn:Hgt.
  - destruct (analyse_short i Hav Hreq Hgt) as (m & e & _ & _ & _ & _ & _ & _ & Ha).
    now exists (short_analysis i (finite_pos m e)).
  - exists (safe_analysis i). split; [now apply analyse_safe | reflexivity].
Qed.

(** C4: more than 3 consecutive days or more than 5 instances in the
    month force the effective rate to [5.0] whatever the chosen rate;
    otherwise the effective rate is the chosen rate. *)
Theorem rate_escalation (i : inputs) :
  in_range i = true ->
  exists a,
    analyse i = Py.Ok a
    /\ (consecutive_days i > 3 \/ monthly_instances i > 5 ->
        effective_penalty_rate a = Py.Float rate_5_0)
    /\ (~ (consecutive_days i > 3 \/ monthly_instances i > 5) ->
        effective_penalty_rate a = Py.Float (penalty_rate i)).
Proof.
  intros Hr. destruct (analyse_rate i Hr) as (a & Ha & Hrate).
  exists a. split; [exact Ha | ].
  rewrite Hrate. unfold compute_rate, escalated.
  destruct (Z.gtb_spec (consecutive_days i) 3),
           (Z.gtb_spec (monthly_instances i) 5); cbn [orb];
    split; intros Hc; try reflexivity; lia.
Qed.

(** C5: when the available margin covers the required one the shortfall
    is [0], no penalty applies and the outcome is the "safe" one, which
    carries no penalty, GST, total or reasons. *)
Theorem sufficient_margin_is_safe (i : inputs) :
  in_range i = true ->
  Py.ge (Py.Float (margin_available i)) (Py.Float (margin_required i)) = true ->
  exists a,
    analyse i = Py.Ok a
    /\ shortfall a = Py.Int 0
    /\ is_penalty_applicable a = false
    /\ outcome a = Safe.
Proof.
  intros Hr Hge. destruct (in_range_amounts i Hr) as [Hav Hreq].
  exists (safe_analysis i). split; [ | now repeat split].
  apply analyse_safe; [exact Hreq | ].
  apply sub_not_positive; try assumption.
  now apply ge_leb_amounts.
Qed.

(** C6: a non-zero shortfall below both thresholds yields the "within
    limits" outcome, without penalty, GST or total, whether or not the
    escalation condition holds. *)
Theorem below_thresholds_within_limits (i : inputs) :
  in_range i = true ->
  exists a,
    analyse i = Py.Ok a
    /\ (Py.eq (shortfall a) (Py.Int 0) = false ->
        Py.lt (shortfall a) (Py.Int 100000) = true ->
        Py.lt (shortfall_percentage a) (Py.Int 10) = true ->
        is_penalty_applicable a = false /\ outcome a = WithinLimits).
Proof.
  intros Hr. destruct (in_range_amounts i Hr) as [Hav Hreq].
  destruct (Py.gt (Py.Float (difference i)) (Py.Int 0)) eqn:Hgt.
  - destruct (analyse_short i Hav Hreq Hgt) as (m & e & _ & _ & _ & _ & _ & _ & Ha).
    exists (short_analysis i (finite_pos m e)). split; [exact Ha | ].
    cbn [short_analysis shortfall shortfall_percentage
      is_penalty_applicable outcome].
    intros _ H1 H2. apply lt_not_ge in H1, H2. rewrite H1, H2.
    now split.
  - exists (safe_analysis i). split; [now apply analyse_safe | ].
    cbn [safe_analysis shortfall]. discriminate.
Qed.

(** C7, amended: whenever a penalty applies the breakdown is computed, with
    [penalty = (effective_rate / 100) * shortfall],
    [gst = penalty * 0.18] (equally [0.18 * penalty]) and
    [total = penalty + gst], each operation rounded to binary64. *)
Theorem penalty_breakdown_formulas (i : inputs) :
  in_range i = true ->
  exists a,
    analyse i = Py.Ok a
    /\ (is_penalty_applicable a = true ->
        exists b r,
          outcome a = PenaltyApplicable b
          /\ Py.truediv (effective_penalty_rate a) (Py.Int 100) = Py.Ok r
          /\ Py.mul r (shortfall a) = Py.Ok (penalty_on_shortfall b)
          /\ Py.mul (penalty_on_shortfall b) (Py.Float gst_rate)
             = Py.Ok (gst_on_penalty b)
          /\ Py.mul (Py.Float gst_rate) (penalty_on_shortfall b)
             = Py.Ok (gst_on_penalty b)
          /\ Py.add (penalty_on_shortfall b) (gst_on_penalty b)
             = Py.Ok (total_penalty b)).
Proof.
  intros Hr. destruct (in_range_amounts i Hr) as [Hav Hreq].
  destruct (Py.gt (Py.Float (difference i)) (Py.Int 0)) eqn:Hgt.
  - destruct (analyse_short i Hav Hreq Hgt) as (m & e & _ & _ & _ & _ & _ & _ & Ha).
    exists (short_analysis i (finite_pos m e)). split; [exact Ha | ].
    cbn [short_analysis shortfall shortfall_percentage
      is_penalty_applicable outcome effective_penalty_rate].
    intros ->. cbn [negb]. eexists. eexists.
    split; [reflexivity | ].
    rewrite compute_rate_float, truediv_float_100.
    split; [reflexivity | ].
    cbn [breakdown_of penalty_on_shortfall gst_on_penalty total_penalty].
    rewrite !mul_floats, add_floats, (mul_comm gst_rate).
    now repeat split.
  - exists (safe_analysis i). split; [now apply analyse_safe | ].
    cbn [safe_analysis is_penalty_applicable]. discriminate.
Qed.

(** C10: with a base rate among [0.5], [1.0] and [5.0] the effective rate
    is among them too. *)
Theorem effective_rate_in_options (i : inputs) :
  in_range i = true ->
  exists a r,
    analyse i = Py.Ok a
    /\ effective_penalty_rate a = Py.Float r
    /\ In r rate_options.
Proof.
  intros Hr. destruct (analyse_rate i Hr) as (a & Ha & Hrate).
  exists a, (float_of_rate i).
  split; [exact Ha | ]. split; [now rewrite Hrate, compute_rate_float | ].
  unfold float_of_rate. destruct (escalated i).
  - right. right. now left.
  - unfold in_range in Hr.
    do 4 (apply andb_true_iff in Hr as [Hr _]).
    apply andb_true_iff in Hr as [_ Hopt].
    apply existsb_exists in Hopt as (r & Hin & Hsame).
    apply same_eq in Hsame. now subst r.
Qed.

(** ** The worked scenario and the boundaries *)

(** Closed goals are settled by evaluation; [evaluate_at H] first replaces
    the analysis named in [H : analyse i = Py.Ok a] by its value. *)
Ltac evaluate := vm_compute; reflexivity.
Ltac evaluate_at H := vm_compute in H; injection H as <-; evaluate.

(** C8, amended: on the worked scenario the rate stays [1.0], the
    shortfall is [4993110.32], the percentage prints as [93.13], a penalty
    applies, the penalty is the float next above [49931.1032], the GST is
    [8987.598576] ([8987.5986] to four places) and the total is
    [58918.701776] ([58918.70] to two places). *)
Theorem worked_scenario :
  exists a b,
    analyse defaults = Py.Ok a
    /\ effective_penalty_rate a = Py.Float rate_1_0
    /\ warning a = None
    /\ shortfall a = Py.Float (B64.literal 499311032 2)
    /\ fixed 2 (shortfall_percentage a) = Some 9313
    /\ is_penalty_applicable a = true
    /\ outcome a = PenaltyApplicable b
    /\ penalty_on_shortfall b
       = Py.Float (B64.succ (B64.literal 499311032 4))
    /\ fixed 4 (penalty_on_shortfall b) = Some 499311032
    /\ gst_on_penalty b = Py.Float (B64.literal 8987598576 6)
    /\ fixed 4 (gst_on_penalty b) = Some 89875986
    /\ total_penalty b = Py.Float (B64.literal 58918701776 6)
    /\ fixed 2 (total_penalty b) = Some 5891870.
Proof.
  eexists. eexists. split; [evaluate | ].
  cbn [effective_penalty_rate warning shortfall shortfall_percentage
    is_penalty_applicable outcome].
  split; [evaluate | ].
  split; [reflexivity | ]. split; [evaluate | ].
  split; [evaluate | ]. split; [reflexivity | ].
  split; [reflexivity | ].
  cbn [penalty_on_shortfall gst_on_penalty total_penalty].
  repeat (split; [evaluate | ]). evaluate.
Qed.

(** C8 as stated fails: the penalty is not the float [49931.1032] and the
    GST is not the float [8987.5986]. *)
Lemma worked_scenario_not_exact :
  exists a b,
    analyse defaults = Py.Ok a
    /\ outcome a = PenaltyApplicable b
    /\ Py.eq (penalty_on_shortfall b) (Py.Float (B64.literal 499311032 4))
       = false
    /\ Py.eq (gst_on_penalty b) (Py.Float (B64.literal 89875986 4)) = false.
Proof.
  eexists. eexists. split; [evaluate | ].
  cbn [outcome]. split; [reflexivity | ].
  split; [evaluate | evaluate].
Qed.

(** C7 as stated fails: with a required margin of [123456.78], nothing
    available and the rate [5.0], the total [penalty + gst] is not
    [1.18 * penalty]. *)
Lemma total_is_not_scaled_penalty :
  exists a b t,
    in_range inexact_total = true
    /\ analyse inexact_total = Py.Ok a
    /\ is_penalty_applicable a = true
    /\ outcome a = PenaltyApplicable b
    /\ Py.mul (Py.Float (B64.literal 118 2)) (penalty_on_shortfall b)
       = Py.Ok t
    /\ Py.eq (total_penalty b) t = false.
Proof.
  eexists. eexists. eexists. split; [evaluate | ].
  split; [evaluate | ].
  cbn [is_penalty_applicable outcome]. split; [reflexivity | ].
  split; [reflexivity | ].
  cbn [penalty_on_shortfall total_penalty].
  split; [evaluate | evaluate].
Qed.

(** ** The theorems at concrete inputs *)

Lemma shortfall_is_clamped_difference_defaults :
  amount_in_range (margin_required defaults) = true
  /\ amount_in_range (margin_available defaults) = true
  /\ exists a d,
       analyse defaults = Py.Ok a
       /\ Py.sub (Py.Float (margin_required defaults))
                 (Py.Float (margin_available defaults)) = Py.Ok d
       /\ shortfall a = Py.max (Py.Int 0) d
       /\ Py.le (Py.Int 0) (shortfall a) = true
       /\ Py.le (shortfall a) (Py.Float (margin_required defaults)) = true.
Proof.
  split; [evaluate | ]. split; [evaluate | ].
  apply (shortfall_is_clamped_difference defaults); evaluate.
Defined.

(** The boundary [margin_required = 100000], [margin_available = 0]: the
    shortfall is [100000], the percentage [100], both tests hold. *)
Lemma penalty_applicability_boundary :
  in_range boundary_both = true
  /\ exists a,
       analyse boundary_both = Py.Ok a
       /\ Py.eq (shortfall a) (Py.Int 100000) = true
       /\ Py.eq (shortfall_percentage a) (Py.Int 100) = true
       /\ is_penalty_by_amount a = true
       /\ is_penalty_by_percentage a = true
       /\ is_penalty_applicable a = true
       /\ exists b, outcome a = PenaltyApplicable b.
Proof.
  split; [evaluate | ].
  destruct (penalty_applicability boundary_both)
    as (a & Ha & H1 & H2 & H3 & H4 & _ & H5); [evaluate | ].
  exists a.
  assert (Hs : Py.eq (shortfall a) (Py.Int 100000) = true).
  { evaluate_at Ha. }
  assert (Hp : Py.eq (shortfall_percentage a) (Py.Int 100) = true).
  { evaluate_at Ha. }
  assert (Hq : is_penalty_by_percentage a = true).
  { evaluate_at Ha. }
  split; [exact Ha | ]. split; [exact Hs | ]. split; [exact Hp | ].
  split; [rewrite H1; now apply eq_ge | ]. split; [exact Hq | ].
  split; [now apply H4 | ]. apply H5. now apply H4.
Defined.

Lemma shortfall_percentage_range_boundary :
  in_range boundary_within = true
  /\ exists a,
       analyse boundary_within = Py.Ok a
       /\ Py.eq (shortfall a) (Py.Int 90000) = true
       /\ Py.eq (shortfall_percentage a) (Py.Int 9) = true
       /\ Py.le (Py.Int 0) (shortfall_percentage a) = true
       /\ Py.le (shortfall_percentage a) (Py.Int 100) = true.
Proof.
  split; [evaluate | ].
  destruct (shortfall_percentage_range boundary_within)
    as (a & Ha & _ & _ & H0 & H100); [evaluate | ].
  exists a. split; [exact Ha | ].
  assert (Hs : Py.eq (shortfall a) (Py.Int 90000) = true).
  { evaluate_at Ha. }
  assert (Hp : Py.eq (shortfall_percentage a) (Py.Int 9) = true).
  { evaluate_at Ha. }
  split; [exact Hs | ]. split; [exact Hp | ]. split; [exact H0 | exact H100].
Defined.

(** Four consecutive days force the rate [5.0] although [0.5] was chosen. *)
Lemma rate_escalation_four_days :
  in_range escalated_minor = true
  /\ penalty_rate escalated_minor = rate_0_5
  /\ exists a,
       analyse escalated_minor = Py.Ok a
       /\ effective_penalty_rate a = Py.Float rate_5_0.
Proof.
  split; [evaluate | ]. split; [reflexivity | ].
  destruct (rate_escalation escalated_minor) as (a & Ha & Hup & _);
    [evaluate | ].
  exists a. split; [exact Ha | ].
  apply Hup. left. cbn [escalated_minor amounts consecutive_days]. lia.
Defined.

Lemma sufficient_margin_is_safe_covered :
  in_range covered = true
  /\ Py.ge (Py.Float (margin_available covered))
           (Py.Float (margin_required covered)) = true
  /\ exists a,
       analyse covered = Py.Ok a
       /\ shortfall a = Py.Int 0
       /\ is_penalty_applicable a = false
       /\ outcome a = Safe.
Proof.
  split; [evaluate | ]. split; [evaluate | ].
  apply (sufficient_margin_is_safe covered); evaluate.
Defined.

(** The boundary [margin_required = 1000000], [margin_available = 910000]
    with four consecutive days: the rate is raised, yet the shortfall of
    [90000], which is [9] percent, stays within limits. *)
Lemma below_thresholds_within_limits_escalated :
  in_range boundary_within = true
  /\ escalated boundary_within = true
  /\ exists a,
       analyse boundary_within = Py.Ok a
       /\ Py.eq (shortfall a) (Py.Int 0) = false
       /\ effective_penalty_rate a = Py.Float rate_5_0
       /\ is_penalty_applicable a = false
       /\ outcome a = WithinLimits.
Proof.
  split; [evaluate | ]. split; [reflexivity | ].
  destruct (below_thresholds_within_limits boundary_within)
    as (a & Ha & H); [evaluate | ].
  exists a. split; [exact Ha | ].
  assert (Hs : Py.eq (shortfall a) (Py.Int 0) = false).
  { evaluate_at Ha. }
  assert (Hr : effective_penalty_rate a = Py.Float rate_5_0).
  { evaluate_at Ha. }
  split; [exact Hs | ]. split; [exact Hr | ].
  apply H; [exact Hs | | ].
  - evaluate_at Ha.
  - evaluate_at Ha.
Defined.

Lemma penalty_breakdown_formulas_defaults :
  in_range defaults = true
  /\ exists a b r,
       analyse defaults = Py.Ok a
       /\ outcome a = PenaltyApplicable b
       /\ Py.truediv (effective_penalty_rate a) (Py.Int 100) = Py.Ok r
       /\ Py.mul r (shortfall a) = Py.Ok (penalty_on_shortfall b)
       /\ Py.mul (penalty_on_shortfall b) (Py.Float gst_rate)
          = Py.Ok (gst_on_penalty b)
       /\ Py.add (penalty_on_shortfall b) (gst_on_penalty b)
          = Py.Ok (total_penalty b).
Proof.
  split; [evaluate | ].
  destruct (penalty_breakdown_formulas defaults) as (a & Ha & H);
    [evaluate | ].
  assert (Hp : is_penalty_applicable a = true).
  { evaluate_at Ha. }
  destruct (H Hp) as (b & r & Hb & H1 & H2 & H3 & _ & H4).
  exists a, b, r. repeat (split; [assumption | ]). assumption.
Defined.

Lemma effective_rate_in_options_escalated :
  in_range escalated_minor = true
  /\ exists a r,
       analyse escalated_minor = Py.Ok a
       /\ effective_penalty_rate a = Py.Float r
       /\ In r rate_options.
Proof.
  split; [evaluate | ].
  apply (effective_rate_in_options escalated_minor). evaluate.
Defined.

(** * Further properties of the script *)

(** ** Digits and right shifts *)

Lemma Zdigits2_bounds (z : Z) :
  0 < z -> 2 ^ (Zdigits2 z - 1) <= z < 2 ^ Zdigits2 z.
Proof. destruct z; try lia. intros _. apply digits2_pos_bounds. Qed.

Lemma Zdigits2_nonneg (z : Z) : 0 <= Zdigits2 z.
Proof. destruct z; cbn; lia. Qed.

Lemma Zdigits2_pos (z : Z) : 0 < z -> 0 < Zdigits2 z.
Proof. destruct z; cbn; lia. Qed.

Lemma Zdigits2_unique (z d : Z) :
  0 < z -> 2 ^ (d - 1) <= z < 2 ^ d -> Zdigits2 z = d.
Proof.
  intros Hz [Hlo Hhi].
  pose proof (Zdigits2_bounds z Hz) as [Hlo' Hhi'].
  pose proof (Zdigits2_pos z Hz) as Hd.
  assert (Hd' : 0 < d).
  { destruct (Z_lt_le_dec 0 d) as [ | Hle]; [assumption | exfalso].
    destruct (Z.eq_dec d 0) as [-> | Hne]; [cbn in Hhi; lia | ].
    rewrite Z.pow_neg_r in Hhi by lia. lia. }
  assert (Zdigits2 z - 1 < d) by (apply (Z.pow_lt_mono_r_iff 2); lia).
  assert (d - 1 < Zdigits2 z) by (apply (Z.pow_lt_mono_r_iff 2); lia).
  lia.
Qed.

Lemma Zdigits2_mul_pow2 (z k : Z) :
  0 < z -> 0 <= k -> Zdigits2 (z * 2 ^ k) = Zdigits2 z + k.
Proof.
  intros Hz Hk.
  pose proof (Zdigits2_bounds z Hz) as [Hlo Hhi].
  pose proof (Zdigits2_pos z Hz) as Hd.
  assert (Hp : 0 < 2 ^ k) by (apply Z.pow_pos_nonneg; lia).
  apply Zdigits2_unique; [nia | ].
  replace (Zdigits2 z + k - 1) with ((Zdigits2 z - 1) + k) by lia.
  rewrite !Z.pow_add_r by lia. nia.
Qed.

Lemma Zdigits2_div_pow2 (z k : Z) :
  0 < z -> 0 <= k < Zdigits2 z ->
  0 < z / 2 ^ k /\ Zdigits2 (z / 2 ^ k) = Zdigits2 z - k.
Proof.
  intros Hz Hk.
  pose proof (Zdigits2_bounds z Hz) as [Hlo Hhi].
  assert (Hp : 0 < 2 ^ k) by (apply Z.pow_pos_nonneg; lia).
  assert (Hlow : 2 ^ (Zdigits2 z - k - 1) <= z / 2 ^ k).
  { apply Z.div_le_lower_bound; [exact Hp | ].
    rewrite <- Z.pow_add_r by lia.
    now replace (k + (Zdigits2 z - k - 1)) with (Zdigits2 z - 1) by lia. }
  assert (Hq : 0 < 2 ^ (Zdigits2 z - k - 1))
    by (apply Z.pow_pos_nonneg; lia).
  split; [lia | ].
  apply Zdigits2_unique; [lia | ]. split; [exact Hlow | ].
  apply Z.div_lt_upper_bound; [exact Hp | ].
  rewrite <- Z.pow_add_r by lia.
  now replace (k + (Zdigits2 z - k)) with (Zdigits2 z) by lia.
Qed.

Lemma Zdigits2_le_mono (a b : Z) :
  0 <= a <= b -> Zdigits2 a <= Zdigits2 b.
Proof.
  intros [Ha Hab].
  destruct (Z.eq_dec a 0) as [-> | Hne]; [apply Zdigits2_nonneg | ].
  pose proof (Zdigits2_bounds a ltac:(lia)) as [Hlo _].
  pose proof (Zdigits2_bounds b ltac:(lia)) as [_ Hhi].
  assert (Zdigits2 a - 1 < Zdigits2 b).
  { apply (Z.pow_lt_mono_r_iff 2); [lia | apply Zdigits2_nonneg | lia]. }
  lia.
Qed.

(** Adding one keeps the number of digits unless a power of two is
    reached. *)
Lemma Zdigits2_succ (m : Z) :
  0 <= m ->
  Zdigits2 (m + 1) = Zdigits2 m
  \/ (m + 1 = 2 ^ Zdigits2 m /\ Zdigits2 (m + 1) = Zdigits2 m + 1).
Proof.
  intros Hm.
  destruct (Z.eq_dec m 0) as [-> | Hne]; [right; now split | ].
  pose proof (Zdigits2_bounds m ltac:(lia)) as [Hlo Hhi].
  pose proof (Zdigits2_pos m ltac:(lia)) as Hd.
  destruct (Z.eq_dec (m + 1) (2 ^ Zdigits2 m)) as [Heq | Hlt].
  - right. split; [exact Heq | ].
    apply Zdigits2_unique; [lia | ].
    replace (Zdigits2 m + 1 - 1) with (Zdigits2 m) by lia.
    rewrite Z.pow_add_r by lia. lia.
  - left. apply Zdigits2_unique; lia.
Qed.

Lemma shr_1_m (r : shr_record) :
  0 <= shr_m r -> shr_m (shr_1 r) = shr_m r / 2.
Proof.
  destruct r as [m r s]. cbn [shr_m]. intros Hm.
  destruct m as [ | [p | p | ] | p]; cbn [shr_1 shr_m]; try lia.
  - reflexivity.
  - apply Z.div_unique with (r := 1); lia.
  - apply Z.div_unique with (r := 0); lia.
  - reflexivity.
Qed.

Lemma shr_iter_m (r0 : shr_record) (p : positive) :
  0 <= shr_m r0 ->
  shr_m (iter_pos shr_1 p r0) = shr_m r0 / 2 ^ Zpos p.
Proof.
  intros H0.
  pose (P := fun (k : Z) (r : shr_record) =>
               0 <= shr_m r /\ shr_m r = shr_m r0 / 2 ^ k).
  assert (Hstep : forall k r, 0 <= k -> P k r -> P (k + 1) (shr_1 r)).
  { intros k r Hk [Hpos Heq]. unfold P.
    rewrite (shr_1_m r Hpos). split.
    - apply Z.div_pos; lia.
    - rewrite Heq, Z.pow_add_r, Z.pow_1_r by lia.
      rewrite Z.div_div; try lia; try (apply Z.pow_pos_nonneg; lia);
        try (apply Z.pow_nonzero; lia). }
  pose proof (iter_pos_inv shr_1 P Hstep p 0 r0 ltac:(lia)) as H.
  destruct H as [_ H]; [ | exact H].
  unfold P. rewrite Z.pow_0_r, Z.div_1_r. now split.
Qed.

(** What [shr_fexp] returns: the exponent asked for by [fexp], when it is
    larger, and the mantissa truncated to it. *)
Lemma shr_fexp_exact (m e : Z) (l : location) :
  0 <= m ->
  snd (shr_fexp B64.prec B64.emax m e l)
  = e + Z.max 0 (fexp B64.prec B64.emax (Zdigits2 m + e) - e)
  /\ shr_m (fst (shr_fexp B64.prec B64.emax m e l))
     = m / 2 ^ Z.max 0 (fexp B64.prec B64.emax (Zdigits2 m + e) - e).
Proof.
  intros Hm. unfold shr_fexp, shr.
  destruct (fexp B64.prec B64.emax (Zdigits2 m + e) - e) as [ | n | n];
    cbn [fst snd].
  - rewrite shr_m_of_loc. cbn. rewrite Z.div_1_r. lia.
  - rewrite shr_iter_m by (rewrite shr_m_of_loc; exact Hm).
    rewrite shr_m_of_loc. split; [lia | reflexivity].
  - rewrite shr_m_of_loc. cbn. rewrite Z.div_1_r. lia.
Qed.

Lemma round_nearest_even_cases (m : Z) (l : location) :
  round_nearest_even m l = m \/ round_nearest_even m l = m + 1.
Proof.
  unfold round_nearest_even.
  destruct l as [ | [ | | ]]; try destruct (Z.even m); auto.
Qed.

Lemma round_nearest_even_ge (m : Z) (l : location) :
  m <= round_nearest_even m l.
Proof. destruct (round_nearest_even_cases m l); lia. Qed.

Lemma canonical_exponent (mx : positive) (ex : Z) :
  canonical_mantissa B64.prec B64.emax mx ex = true ->
  fexp B64.prec B64.emax (Zpos (digits2_pos mx) + ex) = ex /\ -1074 <= ex.
Proof.
  unfold canonical_mantissa. intros H. apply Z.eqb_eq in H.
  split; [exact H | ].
  unfold fexp, emin, B64.prec, B64.emax in H. lia.
Qed.

(** ** Rounding never falls below a representable bound *)

(** The mirror of [binary_round_aux_below]: a positive value not below a
    canonical float rounds to a float that compares not below it. *)
Lemma binary_round_aux_above (m e : Z) (l : location)
      (mx : positive) (ex : Z) :
  canonical_mantissa B64.prec B64.emax mx ex = true ->
  0 < m ->
  e <= fexp B64.prec B64.emax (Zdigits2 m + e) ->
  Zpos mx * 2 ^ (ex - Z.min e ex) <= m * 2 ^ (e - Z.min e ex) ->
  above mx ex (binary_round_aux B64.prec B64.emax false m e l).
Proof.
  intros Hcan Hm Hpre Hval.
  destruct (canonical_exponent mx ex Hcan) as [Hfx Hex].
  pose proof (Zdigits2_bounds m Hm) as [Hmlo Hmhi].
  pose proof (Zdigits2_pos m Hm) as Hdm.
  pose proof (digits2_pos_bounds mx) as [Hxlo Hxhi].
  assert (HD : Zpos (digits2_pos mx) + ex <= Zdigits2 m + e).
  { assert (Hlt : 2 ^ (Zpos (digits2_pos mx) - 1 + (ex - Z.min e ex))
                  < 2 ^ (Zdigits2 m + (e - Z.min e ex))).
    { rewrite !Z.pow_add_r by lia.
      assert (0 < 2 ^ (ex - Z.min e ex)) by (apply Z.pow_pos_nonneg; lia).
      assert (0 < 2 ^ (e - Z.min e ex)) by (apply Z.pow_pos_nonneg; lia).
      nia. }
    apply Z.pow_lt_mono_r_iff in Hlt; lia. }
  assert (He1 : ex <= fexp B64.prec B64.emax (Zdigits2 m + e)).
  { rewrite <- Hfx. now apply fexp_le. }
  destruct (shr_fexp_exact m e l ltac:(lia)) as [Hs1 Hs2].
  remember (fexp B64.prec B64.emax (Zdigits2 m + e)) as e1 eqn:Ee1.
  replace (Z.max 0 (e1 - e)) with (e1 - e) in Hs1, Hs2 by lia.
  replace (e + (e1 - e)) with e1 in Hs1 by lia.
  assert (Hn : 0 <= e1 - e <= Zdigits2 m - 1).
  { unfold fexp, emin, B64.prec, B64.emax in Ee1. lia. }
  assert (H2n : 2 ^ (e1 - e) <= m).
  { apply Z.le_trans with (2 ^ (Zdigits2 m - 1));
      [apply Z.pow_le_mono_r; lia | exact Hmlo]. }
  assert (Hp2n : 0 < 2 ^ (e1 - e)) by (apply Z.pow_pos_nonneg; lia).
  unfold binary_round_aux.
  destruct (shr_fexp B64.prec B64.emax m e l) as [r1 e1'].
  cbn [fst snd] in Hs1, Hs2. subst e1'.
  assert (Hm1 : 1 <= shr_m r1).
  { rewrite Hs2. apply Z.div_le_lower_bound; lia. }
  assert (Hm1x : e1 = ex -> Zpos mx <= shr_m r1).
  { intros Heq. rewrite Hs2. apply Z.div_le_lower_bound; [lia | ].
    replace (Z.min e ex) with e in Hval by lia.
    rewrite Z.sub_diag, Z.pow_0_r, Z.mul_1_r in Hval.
    replace (e1 - e) with (ex - e) by lia. lia. }
  pose proof (round_nearest_even_ge (shr_m r1) (loc_of_shr_record r1)) as Hrne.
  remember (round_nearest_even (shr_m r1) (loc_of_shr_record r1)) as m2.
  destruct (shr_fexp_exact m2 e1 loc_Exact ltac:(lia)) as [Ht1 Ht2].
  pose proof (Zdigits2_bounds m2 ltac:(lia)) as [H2lo H2hi].
  pose proof (Zdigits2_pos m2 ltac:(lia)) as Hd2.
  remember (Z.max 0 (fexp B64.prec B64.emax (Zdigits2 m2 + e1) - e1)) as n2
    eqn:En2.
  assert (Hn2 : 0 <= n2 <= Zdigits2 m2 - 1).
  { unfold fexp, emin, B64.prec, B64.emax in En2. lia. }
  assert (Hp2 : 0 < 2 ^ n2) by (apply Z.pow_pos_nonneg; lia).
  destruct (shr_fexp B64.prec B64.emax m2 e1 loc_Exact) as [r2 e2].
  cbn [fst snd] in Ht1, Ht2.
  assert (Hr2 : 1 <= shr_m r2).
  { rewrite Ht2. apply Z.div_le_lower_bound; [lia | ].
    apply Z.le_trans with (2 ^ (Zdigits2 m2 - 1));
      [rewrite Z.mul_1_r; apply Z.pow_le_mono_r; lia | exact H2lo]. }
  destruct (shr_m r2) as [ | m3 | m3] eqn:Em3; try lia.
  destruct (e2 <=? B64.emax - B64.prec); cbn [above]; [ | reflexivity].
  split; [reflexivity | ].
  destruct (Z.eq_dec e2 ex) as [Heq | Hne]; [right | left; lia].
  split; [exact Heq | ].
  assert (Hz : n2 = 0) by lia.
  rewrite Hz, Z.pow_0_r, Z.div_1_r in Ht2. rewrite Ht2.
  specialize (Hm1x ltac:(lia)). lia.
Qed.

(** ** Rounding yields well-formed floats *)

Lemma binary_round_aux_valid (sx : bool) (m e : Z) (l : location) :
  0 <= m ->
  e <= fexp B64.prec B64.emax (Zdigits2 m + e) ->
  B64.valid (binary_round_aux B64.prec B64.emax sx m e l) = true.
Proof.
  intros Hm Hpre.
  destruct (shr_fexp_exact m e l Hm) as [Hs1 Hs2].
  remember (fexp B64.prec B64.emax (Zdigits2 m + e)) as e1 eqn:Ee1.
  replace (Z.max 0 (e1 - e)) with (e1 - e) in Hs1, Hs2 by lia.
  replace (e + (e1 - e)) with e1 in Hs1 by lia.
  assert (Hp2n : 0 < 2 ^ (e1 - e)) by (apply Z.pow_pos_nonneg; lia).
  unfold binary_round_aux.
  destruct (shr_fexp B64.prec B64.emax m e l) as [r1 e1'].
  cbn [fst snd] in Hs1, Hs2. subst e1'.
  assert (Hm1 : 0 <= shr_m r1) by (rewrite Hs2; apply Z.div_pos; lia).
  assert (Hc1 : fexp B64.prec B64.emax (Zdigits2 (shr_m r1) + e1) = e1).
  { destruct (Z.eq_dec m 0) as [-> | Hne].
    - rewrite Hs2, Z.div_0_l by lia. cbn [Zdigits2] in *.
      unfold fexp, emin, B64.prec, B64.emax in *. lia.
    - pose proof (Zdigits2_bounds m ltac:(lia)) as [Hlo Hhi].
      pose proof (Zdigits2_pos m ltac:(lia)) as Hd.
      destruct (Z_lt_le_dec (e1 - e) (Zdigits2 m)) as [Hlt | Hge].
      + destruct (Zdigits2_div_pow2 m (e1 - e) ltac:(lia) ltac:(lia))
          as [_ Hdig].
        rewrite Hs2, Hdig.
        replace (Zdigits2 m - (e1 - e) + e1) with (Zdigits2 m + e) by lia.
        now symmetry.
      + assert (Hsmall : m < 2 ^ (e1 - e)).
        { apply Z.lt_le_trans with (1 := Hhi). apply Z.pow_le_mono_r; lia. }
        rewrite Hs2, Z.div_small by lia. cbn [Zdigits2].
        unfold fexp, emin, B64.prec, B64.emax in *. lia. }
  remember (round_nearest_even (shr_m r1) (loc_of_shr_record r1)) as m2
    eqn:Em2.
  assert (Hm2 : m2 = shr_m r1 \/ m2 = shr_m r1 + 1)
    by (subst m2; apply round_nearest_even_cases).
  assert (Hm2pos : 0 <= m2) by lia.
  destruct (shr_fexp_exact m2 e1 loc_Exact Hm2pos) as [Ht1 Ht2].
  destruct (shr_fexp B64.prec B64.emax m2 e1 loc_Exact) as [r2 e2].
  cbn [fst snd] in Ht1, Ht2.
  assert (Hc2 : 0 <= shr_m r2
                /\ fexp B64.prec B64.emax (Zdigits2 (shr_m r2) + e2) = e2).
  { assert (Hsame : Zdigits2 m2 = Zdigits2 (shr_m r1) ->
                    0 <= shr_m r2
                    /\ fexp B64.prec B64.emax (Zdigits2 (shr_m r2) + e2) = e2).
    { intros Hd. rewrite Hd, Hc1, Z.sub_diag in Ht1, Ht2.
      cbn in Ht1, Ht2. rewrite Z.div_1_r in Ht2.
      rewrite Ht2, Ht1, Z.add_0_r, Hd. split; [lia | exact Hc1]. }
    destruct Hm2 as [Heq | Heq]; [apply Hsame; now rewrite Heq | ].
    destruct (Zdigits2_succ (shr_m r1) Hm1) as [Hd | [Hpow Hd]];
      rewrite <- Heq in *; [now apply Hsame | ].
    pose proof (Zdigits2_nonneg (shr_m r1)) as Hd1.
    remember (Z.max 0 (fexp B64.prec B64.emax (Zdigits2 m2 + e1) - e1))
      as n2 eqn:En2.
    assert (Hn2 : n2 = 0 \/ (n2 = 1 /\ 1 <= Zdigits2 (shr_m r1))).
    { unfold fexp, emin, B64.prec, B64.emax in *. lia. }
    destruct Hn2 as [-> | [-> Hd1']].
    - cbn in Ht2. rewrite Z.div_1_r in Ht2.
      rewrite Ht2, Ht1, Z.add_0_r. split; [lia | ].
      unfold fexp, emin, B64.prec, B64.emax in *. lia.
    - assert (H2 : 2 <= m2).
      { rewrite Hpow. change 2 with (2 ^ 1) at 1.
        apply Z.pow_le_mono_r; lia. }
      destruct (Zdigits2_div_pow2 m2 1 ltac:(lia) ltac:(lia))
        as [Hpos Hdig].
      rewrite Ht2, Hdig, Ht1. split; [lia | ].
      unfold fexp, emin, B64.prec, B64.emax in *. lia. }
  destruct Hc2 as [Hr2 Hc2].
  destruct (shr_m r2) as [ | m3 | m3]; try reflexivity.
  destruct (e2 <=? B64.emax - B64.prec) eqn:Ele; [ | reflexivity].
  unfold B64.valid, valid_binary, bounded, canonical_mantissa.
  cbn [Zdigits2] in Hc2. rewrite Hc2, Z.eqb_refl, Ele. reflexivity.
Qed.

(** ** Well-formed and bounded results of the operations *)

(** After [shl_align] the exponent is the one [fexp] asks for, or below. *)
Lemma shl_align_fexp (m : positive) (e : Z) :
  let mz := fst (shl_align m e
                   (fexp B64.prec B64.emax (Zpos (digits2_pos m) + e))) in
  let ez := snd (shl_align m e
                   (fexp B64.prec B64.emax (Zpos (digits2_pos m) + e))) in
  ez <= e /\ Zpos mz = Zpos m * 2 ^ (e - ez)
  /\ ez <= fexp B64.prec B64.emax (Zdigits2 (Zpos mz) + ez).
Proof.
  intros mz ez.
  destruct (shl_align_spec m e
              (fexp B64.prec B64.emax (Zpos (digits2_pos m) + e)))
    as [H1 H2].
  fold mz in H2. fold ez in H1, H2.
  split; [lia | ]. split; [exact H2 | ].
  rewrite H2, Zdigits2_mul_pow2 by lia. cbn [Zdigits2].
  replace (Zpos (digits2_pos m) + (e - ez) + ez)
    with (Zpos (digits2_pos m) + e) by lia.
  lia.
Qed.

Lemma binary_round_valid (sx : bool) (m : positive) (e : Z) :
  B64.valid (binary_round B64.prec B64.emax sx m e) = true.
Proof.
  unfold binary_round.
  destruct (shl_align_fexp m e) as (_ & _ & H).
  destruct (shl_align m e _) as [mz ez]. cbn [fst snd] in H.
  apply binary_round_aux_valid; [lia | exact H].
Qed.

Lemma binary_round_below (m : positive) (e : Z) (mx : positive) (ex : Z) :
  bounded B64.prec B64.emax mx ex = true ->
  e <= ex -> Zpos m <= Zpos mx * 2 ^ (ex - e) ->
  below mx ex (binary_round B64.prec B64.emax false m e).
Proof.
  intros Hb He Hle. unfold binary_round.
  destruct (shl_align_fexp m e) as (H1 & H2 & _).
  destruct (shl_align m e _) as [mz ez]. cbn [fst snd] in H1, H2.
  apply binary_round_aux_below; [exact Hb | lia | lia | ].
  cbn [loc_weight]. rewrite H2, Z.add_0_r.
  replace (ex - ez) with ((ex - e) + (e - ez)) by lia.
  rewrite Z.pow_add_r, Z.mul_assoc by lia.
  apply Z.mul_le_mono_nonneg_r; [apply Z.pow_nonneg; lia | exact Hle].
Qed.

Lemma binary_round_above (m : positive) (e : Z) (mx : positive) (ex : Z) :
  canonical_mantissa B64.prec B64.emax mx ex = true ->
  Zpos mx * 2 ^ (ex - Z.min e ex) <= Zpos m * 2 ^ (e - Z.min e ex) ->
  above mx ex (binary_round B64.prec B64.emax false m e).
Proof.
  intros Hcan Hval. unfold binary_round.
  destruct (shl_align_fexp m e) as (H1 & H2 & H3).
  destruct (shl_align m e _) as [mz ez]. cbn [fst snd] in H1, H2, H3.
  apply binary_round_aux_above; [exact Hcan | lia | exact H3 | ].
  rewrite H2, <- Z.mul_assoc, <- Z.pow_add_r by lia.
  replace (e - ez + (ez - Z.min ez ex))
    with ((e - Z.min e ex) + (Z.min e ex - Z.min ez ex)) by lia.
  replace (ex - Z.min ez ex)
    with ((ex - Z.min e ex) + (Z.min e ex - Z.min ez ex)) by lia.
  rewrite !Z.pow_add_r, !Z.mul_assoc by lia.
  apply Z.mul_le_mono_nonneg_r; [apply Z.pow_nonneg; lia | exact Hval].
Qed.

Lemma amount_valid (x : float) :
  amount_in_range x = true -> B64.valid x = true.
Proof.
  unfold amount_in_range. intros H.
  apply andb_true_iff in H as [H _]. now apply andb_true_iff in H as [H _].
Qed.

Lemma sub_valid (x y : float) :
  amount_in_range x = true -> amount_in_range y = true ->
  B64.valid (B64.sub x y) = true.
Proof.
  intros Hx Hy. pose proof (amount_valid x Hx) as Hvx.
  pose proof (amount_valid y Hy) as Hvy.
  destruct (amount_cases x Hx) as [[sx ->] | (mx & ex & -> & _)];
    destruct (amount_cases y Hy) as [[sy ->] | (my & ey & -> & _)].
  - destruct sx, sy; reflexivity.
  - exact Hvy.
  - exact Hvx.
  - unfold B64.sub, SFsub, finite_pos, binary_normalize.
    destruct (_ - _) as [ | d | d]; [reflexivity | | ];
      apply binary_round_valid.
Qed.

Lemma mul_valid (x y : float) :
  B64.valid x = true -> B64.valid y = true ->
  B64.valid (B64.mul x y) = true.
Proof.
  destruct x as [s | s | | s m e], y as [t | t | | t n f];
    try reflexivity.
  unfold B64.valid, valid_binary, bounded. intros Hx Hy.
  apply andb_true_iff in Hx as [Hx _]. apply andb_true_iff in Hy as [Hy _].
  unfold canonical_mantissa in Hx, Hy.
  apply Z.eqb_eq in Hx. apply Z.eqb_eq in Hy.
  unfold B64.mul, SFmul. apply binary_round_aux_valid; [lia | ].
  pose proof (digits2_pos_bounds m) as [Hmlo Hmhi].
  pose proof (digits2_pos_bounds n) as [Hnlo Hnhi].
  pose proof (digits2_pos_bounds (m * n)) as [Hplo Hphi].
  cbn [Zdigits2].
  assert (Hd : Zpos (digits2_pos m) + Zpos (digits2_pos n) - 1
               <= Zpos (digits2_pos (m * n))).
  { assert (Hlt : 2 ^ ((Zpos (digits2_pos m) - 1)
                       + (Zpos (digits2_pos n) - 1))
                  < 2 ^ Zpos (digits2_pos (m * n))).
    { rewrite Z.pow_add_r by lia. rewrite Pos2Z.inj_mul in Hphi.
      assert (0 < 2 ^ (Zpos (digits2_pos m) - 1))
        by (apply Z.pow_pos_nonneg; lia).
      assert (0 < 2 ^ (Zpos (digits2_pos n) - 1))
        by (apply Z.pow_pos_nonneg; lia).
      nia. }
    apply Z.pow_lt_mono_r_iff in Hlt; lia. }
  unfold fexp, emin, B64.prec, B64.emax in *. lia.
Qed.

(** A product with a factor in [[0, 1]] is not above the other factor. *)
Lemma mul_fraction_below (rm : positive) (re : Z) (dm : positive) (de : Z) :
  re <= 0 -> Zpos rm <= 2 ^ (- re) ->
  bounded B64.prec B64.emax dm de = true ->
  below dm de (B64.mul (finite_pos rm re) (finite_pos dm de)).
Proof.
  intros Hre Hrm Hb. unfold B64.mul, SFmul, finite_pos. cbn [xorb].
  apply binary_round_aux_below; [exact Hb | lia | lia | ].
  cbn [loc_weight]. rewrite Z.add_0_r, Pos2Z.inj_mul.
  replace (de - (re + de)) with (- re) by lia.
  rewrite (Z.mul_comm (Zpos rm)).
  apply Z.mul_le_mono_nonneg_l; lia.
Qed.

(** A sum with a non-negative term is not below the other term. *)
Lemma add_above (pm : positive) (pe : Z) (g : float) :
  canonical_mantissa B64.prec B64.emax pm pe = true ->
  (g = S754_zero false \/ exists gm ge, g = finite_pos gm ge) ->
  above pm pe (B64.add (finite_pos pm pe) g).
Proof.
  intros Hcan [-> | (gm & ge & ->)].
  - cbn. split; [reflexivity | right; split; lia].
  - unfold B64.add, SFadd, finite_pos. cbn [cond_Zopp].
    rewrite (aligned_mantissa pm pe ge).
    set (g' := fst (shl_align gm ge (Z.min pe ge))).
    assert (Hp : 0 < 2 ^ (pe - Z.min pe ge))
      by (apply Z.pow_pos_nonneg; lia).
    destruct (Zpos pm * 2 ^ (pe - Z.min pe ge) + Zpos g')
      as [ | d | d] eqn:Ed; try lia.
    unfold binary_normalize. apply binary_round_above; [exact Hcan | ].
    replace (Z.min (Z.min pe ge) pe) with (Z.min pe ge) by lia.
    rewrite Z.sub_diag, Z.pow_0_r, Z.mul_1_r. lia.
Qed.

Lemma below_trans (m1 : positive) (e1 : Z) (m2 : positive) (e2 : Z)
      (x : float) :
  e1 <= e2 -> Zpos m1 <= Zpos m2 * 2 ^ (e2 - e1) ->
  below m1 e1 x -> below m2 e2 x.
Proof.
  intros He Hm. destruct x as [s | s | | s m e]; cbn [below]; try easy.
  intros (-> & He' & Hle). split; [reflexivity | ]. split; [lia | ].
  replace (e2 - e) with ((e2 - e1) + (e1 - e)) by lia.
  rewrite Z.pow_add_r, Z.mul_assoc by lia.
  apply Z.le_trans with (1 := Hle).
  apply Z.mul_le_mono_nonneg_r; [apply Z.pow_nonneg; lia | exact Hm].
Qed.

Lemma below_finite_nonneg (mx : positive) (ex : Z) (x : float) :
  below mx ex x -> finite_nonneg (Py.Float x) = true.
Proof.
  intros H. unfold finite_nonneg.
  rewrite (zero_le_below mx ex x H).
  destruct x as [s | s | | s m e]; cbn [below] in H; try contradiction;
    reflexivity.
Qed.

(** A product with a factor below [2^-4] stays below [2^1020]. *)
Lemma mul_below_big (rm : positive) (re : Z) (dm : positive) (de : Z) :
  re <= -57 -> Zpos rm < 2 ^ 53 ->
  bounded B64.prec B64.emax dm de = true ->
  below big_m 968 (B64.mul (finite_pos rm re) (finite_pos dm de)).
Proof.
  intros Hre Hrm Hb. unfold B64.mul, SFmul, finite_pos. cbn [xorb].
  pose proof Hb as Hb'. unfold bounded in Hb'.
  apply andb_true_iff in Hb' as [Hcan Hmax].
  apply canonical_bounds in Hcan as (Hdm & _ & _).
  apply Z.leb_le in Hmax. unfold B64.emax, B64.prec in Hmax.
  apply binary_round_aux_below; [reflexivity | lia | lia | ].
  cbn [loc_weight]. rewrite Z.add_0_r, Pos2Z.inj_mul.
  change (Zpos big_m) with (2 ^ 52). rewrite <- Z.pow_add_r by lia.
  apply Z.le_trans with (2 ^ 106).
  - change (2 ^ 106) with (2 ^ 53 * 2 ^ 53). nia.
  - apply Z.pow_le_mono_r; lia.
Qed.

(** A sum of two floats below a bound stays below twice the bound. *)
Lemma add_below_double (M : positive) (E : Z) (p g : float) :
  bounded B64.prec B64.emax M (E + 1) = true ->
  below M E p -> below M E g ->
  below M (E + 1) (B64.add p g).
Proof.
  intros Hb Hp Hg.
  assert (Hup : forall x, below M E x -> below M (E + 1) x).
  { intros x. apply below_trans; [lia | ].
    replace (E + 1 - E) with 1 by lia. lia. }
  destruct p as [s | s | | s pm pe]; cbn [below] in Hp; try contradiction;
    destruct g as [t | t | | t gm ge]; cbn [below] in Hg;
    try contradiction.
  - subst s t. reflexivity.
  - subst s. destruct Hg as (-> & Hg). apply (Hup (S754_finite false gm ge)).
    cbn [below]. now split.
  - subst t. destruct Hp as (-> & Hp). apply (Hup (S754_finite false pm pe)).
    cbn [below]. now split.
  - destruct Hp as (-> & Hpe & Hpm). destruct Hg as (-> & Hge & Hgm).
    unfold B64.add, SFadd. cbn [cond_Zopp].
    rewrite (aligned_mantissa pm pe ge).
    rewrite (Z.min_comm pe ge), (aligned_mantissa gm ge pe).
    rewrite (Z.min_comm ge pe).
    set (ez := Z.min pe ge).
    assert (H1 : 0 < 2 ^ (pe - ez)) by (apply Z.pow_pos_nonneg; lia).
    assert (H2 : 0 < 2 ^ (ge - ez)) by (apply Z.pow_pos_nonneg; lia).
    assert (Hp' : Zpos pm * 2 ^ (pe - ez) <= Zpos M * 2 ^ (E - ez)).
    { replace (E - ez) with ((E - pe) + (pe - ez)) by lia.
      rewrite Z.pow_add_r, Z.mul_assoc by lia.
      apply Z.mul_le_mono_nonneg_r; lia. }
    assert (Hg' : Zpos gm * 2 ^ (ge - ez) <= Zpos M * 2 ^ (E - ez)).
    { replace (E - ez) with ((E - ge) + (ge - ez)) by lia.
      rewrite Z.pow_add_r, Z.mul_assoc by lia.
      apply Z.mul_le_mono_nonneg_r; lia. }
    destruct (Zpos pm * 2 ^ (pe - ez) + Zpos gm * 2 ^ (ge - ez))
      as [ | d | d] eqn:Ed; try lia.
    unfold binary_normalize.
    apply binary_round_below; [exact Hb | lia | ].
    replace (E + 1 - ez) with (1 + (E - ez)) by lia.
    rewrite Z.pow_add_r by lia. change (2 ^ 1) with 2. lia.
Qed.

Lemma valid_bounded (m : positive) (e : Z) :
  B64.valid (finite_pos m e) = true ->
  bounded B64.prec B64.emax m e = true.
Proof. intros H. exact H. Qed.

Lemma above_leb (pm : positive) (pe : Z) (t : float) :
  above pm pe t -> Py.le (Py.Float (finite_pos pm pe)) (Py.Float t) = true.
Proof.
  destruct t as [s | s | | s m e]; cbn [above]; try contradiction.
  - intros ->. reflexivity.
  - intros (-> & H).
    unfold Py.le, Py.compare, B64.compare, finite_pos, SFcompare.
    destruct (Z.compare_spec pe e) as [Heq | Hlt | Hgt];
      [ | reflexivity | lia].
    destruct H as [H | [_ H]]; [lia | ].
    change (Pos.compare_cont Eq pm m) with (pm ?= m)%positive.
    destruct (Pos.compare_spec pm m); try reflexivity; lia.
Qed.

Lemma above_positive (pm : positive) (pe : Z) (t : float) :
  above pm pe t -> Py.gt (Py.Float t) (Py.Int 0) = true.
Proof.
  destruct t as [s | s | | s m e]; cbn [above]; try contradiction.
  - intros ->. reflexivity.
  - intros (-> & _). now rewrite gt_zero_finite.
Qed.

(** ** A positive gap is never rounded away *)

Lemma aligned_lt (mx my : positive) (ex ey : Z) :
  canonical_mantissa B64.prec B64.emax mx ex = true ->
  canonical_mantissa B64.prec B64.emax my ey = true ->
  B64.compare (finite_pos mx ex) (finite_pos my ey) = Some Lt ->
  Zpos mx * 2 ^ (ex - Z.min ex ey) < Zpos my * 2 ^ (ey - Z.min ex ey).
Proof.
  intros Hx Hy Hlt.
  apply canonical_bounds in Hx as (Hx1 & Hx2 & Hx3).
  apply canonical_bounds in Hy as (Hy1 & Hy2 & Hy3).
  unfold B64.compare, finite_pos, SFcompare in Hlt.
  destruct (Z.compare_spec ex ey) as [Heq | Hl | Hg].
  - subst ey. rewrite Z.min_id, Z.sub_diag, Z.pow_0_r.
    change (Pos.compare_cont Eq mx my) with (mx ?= my)%positive in Hlt.
    injection Hlt as Hlt. change (mx < my)%positive in Hlt. lia.
  - replace (Z.min ex ey) with ex by lia.
    rewrite Z.sub_diag, Z.pow_0_r.
    assert (H2 : 2 ^ 1 <= 2 ^ (ey - ex)) by (apply Z.pow_le_mono_r; lia).
    change (2 ^ 1) with 2 in H2.
    specialize (Hy2 ltac:(lia)).
    change (2 ^ 53) with (2 * 2 ^ 52) in Hx1. nia.
  - discriminate.
Qed.

(** [x - y] for two amounts with [y < x] is positive: gradual underflow
    keeps the smallest gap. *)
Lemma sub_positive (x y : float) :
  amount_in_range x = true -> amount_in_range y = true ->
  Py.ge (Py.Float y) (Py.Float x) = false ->
  Py.gt (Py.Float (B64.sub x y)) (Py.Int 0) = true.
Proof.
  intros Hx Hy Hge.
  destruct (amount_cases x Hx) as [[sx ->] | (mx & ex & -> & Hbx)];
    destruct (amount_cases y Hy) as [[sy ->] | (my & ey & -> & Hby)].
  - discriminate.
  - discriminate.
  - unfold B64.sub, SFsub, finite_pos. now rewrite gt_zero_finite.
  - apply andb_true_iff in Hbx as [Hcx _].
    apply andb_true_iff in Hby as [Hcy _].
    assert (Hlt : B64.compare (finite_pos my ey) (finite_pos mx ex)
                  = Some Lt).
    { unfold Py.ge, Py.compare, B64.compare, finite_pos, SFcompare
        in Hge |- *.
      destruct (ey ?= ex); [destruct (Pos.compare_cont Eq my mx) | | ];
        try discriminate; reflexivity. }
    pose proof (aligned_lt my mx ey ex Hcy Hcx Hlt) as Hal.
    rewrite (Z.min_comm ey ex) in Hal.
    apply canonical_bounds in Hcx as (_ & _ & Hex).
    apply canonical_bounds in Hcy as (_ & _ & Hey).
    unfold B64.sub, SFsub, finite_pos. cbn [cond_Zopp].
    rewrite (aligned_mantissa mx ex ey).
    rewrite (Z.min_comm ex ey), (aligned_mantissa my ey ex).
    rewrite (Z.min_comm ey ex).
    destruct (Zpos mx * 2 ^ (ex - Z.min ex ey)
              - Zpos my * 2 ^ (ey - Z.min ex ey)) as [ | d | d] eqn:Ed;
      try lia.
    unfold binary_normalize.
    apply (above_positive 1 (-1074)).
    apply binary_round_above; [reflexivity | ].
    replace (Z.min (Z.min ex ey) (-1074)) with (-1074) by lia.
    rewrite Z.sub_diag, Z.pow_0_r.
    assert (0 < 2 ^ (Z.min ex ey - -1074))
      by (apply Z.pow_pos_nonneg; lia).
    nia.
Qed.

(** ** A float divided by itself *)

Lemma div_self (m : positive) (e : Z) :
  B64.div (finite_pos m e) (finite_pos m e) = finite_pos one_m (-52).
Proof.
  unfold B64.div, SFdiv, finite_pos, SFdiv_core_binary. cbn [xorb Zdigits2].
  replace (Zpos (digits2_pos m) + e - (Zpos (digits2_pos m) + e)) with 0
    by lia.
  rewrite Z.sub_diag.
  change (Z.min (fexp B64.prec B64.emax 0) 0) with (-53).
  change (0 - -53) with 53.
  rewrite Z.shiftl_mul_pow2 by lia.
  pose proof (Z_div_mod (Zpos m * 2 ^ 53) (Zpos m) ltac:(lia)) as Hdiv.
  destruct (Z.div_eucl (Zpos m * 2 ^ 53) (Zpos m)) as [q r].
  destruct Hdiv as [Hq Hr].
  assert (Hq' : q = 2 ^ 53) by nia.
  assert (Hr' : r = 0) by nia.
  subst q r.
  replace (new_location (Zpos m) 0) with loc_Exact
    by (unfold new_location; destruct (Z.even (Zpos m)); reflexivity).
  vm_compute. reflexivity.
Qed.

(** ** The breakdown of an in-range input *)

Lemma float_of_rate_in_options (i : inputs) :
  in_range i = true -> In (float_of_rate i) rate_options.
Proof.
  intros Hr. unfold float_of_rate. destruct (escalated i).
  - right. right. now left.
  - unfold in_range in Hr.
    do 4 (apply andb_true_iff in Hr as [Hr _]).
    apply andb_true_iff in Hr as [_ Hopt].
    apply existsb_exists in Hopt as (r & Hin & Hsame).
    apply same_eq in Hsame. now subst r.
Qed.

(** Each rate, divided by [100], is a float below [2^-4]. *)
Lemma rate_fraction (r : float) :
  In r rate_options ->
  exists rm re,
    B64.div r (B64.of_Z 100) = finite_pos rm re
    /\ re <= -57 /\ Zpos rm < 2 ^ 53
    /\ B64.valid (finite_pos rm re) = true.
Proof.
  intros [<- | [<- | [<- | []]]]; eexists; eexists;
    (split; [vm_compute; reflexivity | ]);
    (split; [lia | ]); (split; [reflexivity | reflexivity]).
Qed.

Lemma gst_rate_value : gst_rate = finite_pos 6485183463413514 (-55).
Proof. vm_compute. reflexivity. Qed.

Lemma below_float_leb (pm : positive) (pe : Z) (g : float) :
  below pm pe g -> Py.le (Py.Float g) (Py.Float (finite_pos pm pe)) = true.
Proof.
  destruct g as [s | s | | s m e]; cbn [below]; try contradiction.
  - intros _. reflexivity.
  - intros (-> & He & Hle). now apply below_leb.
Qed.

Lemma below_cases (mx : positive) (ex : Z) (x : float) :
  below mx ex x ->
  x = S754_zero false \/ exists m e, x = finite_pos m e.
Proof.
  destruct x as [s | s | | s m e]; cbn [below]; try contradiction.
  - intros ->. now left.
  - intros (-> & _). right. now exists m, e.
Qed.

(** The three amounts of a breakdown are finite, well ordered, and the
    penalty is not above the shortfall. *)
Lemma breakdown_bounds (r : float) (dm : positive) (de : Z) (pct : float)
      (amount percentage : bool) :
  In r rate_options ->
  bounded B64.prec B64.emax dm de = true ->
  exists p g t,
    penalty_on_shortfall
      (breakdown_of r (finite_pos dm de) pct amount percentage) = Py.Float p
    /\ gst_on_penalty
         (breakdown_of r (finite_pos dm de) pct amount percentage)
       = Py.Float g
    /\ total_penalty
         (breakdown_of r (finite_pos dm de) pct amount percentage)
       = Py.Float t
    /\ below dm de p
    /\ below big_m 968 p /\ below big_m 968 g /\ below big_m 969 t
    /\ Py.le (Py.Float g) (Py.Float p) = true
    /\ Py.le (Py.Float p) (Py.Float t) = true.
Proof.
  intros Hin Hb.
  destruct (rate_fraction r Hin) as (rm & re & Hr & Hre & Hrm & Hvr).
  cbn [breakdown_of penalty_on_shortfall gst_on_penalty total_penalty].
  rewrite Hr.
  set (p := B64.mul (finite_pos rm re) (finite_pos dm de)).
  assert (Hpd : below dm de p).
  { apply mul_fraction_below; [lia | | exact Hb].
    apply Z.le_trans with (2 ^ 53); [lia | apply Z.pow_le_mono_r; lia]. }
  assert (Hpb : below big_m 968 p) by (now apply mul_below_big).
  assert (Hpv : B64.valid p = true) by (now apply mul_valid).
  exists p, (B64.mul p gst_rate), (B64.add p (B64.mul p gst_rate)).
  do 3 (split; [reflexivity | ]). split; [exact Hpd | ].
  split; [exact Hpb | ].
  rewrite gst_rate_value.
  destruct (below_cases _ _ _ Hpd) as [Hp | (pm & pe & Hp)]; rewrite Hp in *.
  - repeat split; reflexivity.
  - rewrite (mul_comm (finite_pos pm pe)).
    set (g := B64.mul (finite_pos 6485183463413514 (-55)) (finite_pos pm pe)).
    assert (Hgp : below pm pe g).
    { apply mul_fraction_below; [lia | | exact Hpv].
      change (2 ^ (- -55)) with 36028797018963968. lia. }
    assert (Hgb : below big_m 968 g).
    { cbn [below finite_pos] in Hpb. destruct Hpb as (_ & He & Hm).
      now apply below_trans with (3 := Hgp). }
    split; [exact Hgb | ]. split.
    + change 969 with (968 + 1).
      apply add_below_double; [reflexivity | exact Hpb | exact Hgb].
    + split; [now apply below_float_leb | ].
      apply above_leb. apply add_above.
      * apply andb_true_iff in Hpv as [Hc _]. exact Hc.
      * exact (below_cases _ _ _ Hgp).
Qed.

(** ** Properties beyond the specification *)

(** X1: the "safe" card is shown exactly when the available margin covers
    the required one, and exactly when the shortfall is [0]: a gap between
    the two margins, however small, is never rounded away. *)
Theorem safe_iff_covered (i : inputs) :
  in_range i = true ->
  exists a,
    analyse i = Py.Ok a
    /\ (outcome a = Safe <->
        Py.ge (Py.Float (margin_available i))
              (Py.Float (margin_required i)) = true)
    /\ (outcome a = Safe <-> shortfall a = Py.Int 0).
Proof.
  intros Hr. destruct (in_range_amounts i Hr) as [Hav Hreq].
  destruct (Py.ge (Py.Float (margin_available i))
                  (Py.Float (margin_required i))) eqn:Hge.
  - exists (safe_analysis i). split; [ | now split].
    apply analyse_safe; [exact Hreq | ].
    apply sub_not_positive; try assumption. now apply ge_leb_amounts.
  - pose proof (sub_positive _ _ Hreq Hav Hge) as Hgt.
    destruct (analyse_short i Hav Hreq Hgt)
      as (m & e & _ & _ & _ & _ & _ & _ & Ha).
    exists (short_analysis i (finite_pos m e)). split; [exact Ha | ].
    cbn [short_analysis outcome shortfall].
    split; split; intros H; try discriminate;
      destruct (negb _); discriminate.
Qed.

(** X2: the metrics agree with the status card: the shortfall metric
    says "No shortfall" exactly on the "safe" card, "Above threshold"
    is shown only with the penalty card, and the "within limits" card
    comes with "Below threshold". *)
Theorem metrics_agree_with_status (i : inputs) :
  in_range i = true ->
  exists a,
    analyse i = Py.Ok a
    /\ (shortfall_amount_delta (display_metrics a) = no_shortfall <->
        outcome a = Safe)
    /\ (shortfall_pct_delta (display_metrics a) = above_threshold ->
        exists b, outcome a = PenaltyApplicable b)
    /\ (outcome a = WithinLimits ->
        shortfall_pct_delta (display_metrics a) = below_threshold
        /\ shortfall_pct_color (display_metrics a) = normal).
Proof.
  intros Hr. destruct (in_range_amounts i Hr) as [Hav Hreq].
  destruct (Py.gt (Py.Float (difference i)) (Py.Int 0)) eqn:Hgt.
  - destruct (analyse_short i Hav Hreq Hgt)
      as (m & e & _ & _ & _ & _ & _ & _ & Ha).
    exists (short_analysis i (finite_pos m e)). split; [exact Ha | ].
    unfold display_metrics, compute_metrics.
    cbn [short_analysis outcome shortfall shortfall_percentage
      shortfall_amount_delta shortfall_pct_delta shortfall_pct_color].
    unfold finite_pos at 1. rewrite gt_zero_finite. cbn [negb].
    destruct (Py.ge (Py.Float (finite_pos m e)) (Py.Int 100000));
      destruct (Py.ge (Py.Float (B64.mul _ _)) (Py.Int 10));
      cbn [orb negb];
      (split; [split; intros H; discriminate H | ]);
      (split; [intros H; (discriminate H || eauto)
              | intros H; (discriminate H || now split)]).
  - exists (safe_analysis i). split; [now apply analyse_safe | ].
    unfold display_metrics, compute_metrics.
    cbn [safe_analysis outcome shortfall shortfall_percentage
      shortfall_amount_delta shortfall_pct_delta shortfall_pct_color].
    unfold zero_percentage.
    destruct (Py.gt (Py.Float (margin_required i)) (Py.Int 0));
      (split; [now split | ]);
      (split; intros H; discriminate H).
Qed.

Lemma analyse_warning (i : inputs) :
  in_range i = true ->
  exists a, analyse i = Py.Ok a /\ warning a = compute_warning i
            /\ effective_penalty_rate a = compute_rate i.
Proof.
  intros Hr. destruct (in_range_amounts i Hr) as [Hav Hreq].
  destruct (Py.gt (Py.Float (difference i)) (Py.Int 0)) eqn:Hgt.
  - destruct (analyse_short i Hav Hreq Hgt)
      as (m & e & _ & _ & _ & _ & _ & _ & Ha).
    now exists (short_analysis i (finite_pos m e)).
  - exists (safe_analysis i). split; [now apply analyse_safe | now split].
Qed.

(** X3: the warning depends on the two counters only.  It names the
    consecutive days whenever they exceed 3, also when the instances
    exceed 5 too; it names the instances only when the days do not exceed
    3; and it is absent exactly when neither limit is exceeded. *)
Theorem warning_cause (i : inputs) :
  in_range i = true ->
  exists a,
    analyse i = Py.Ok a
    /\ (warning a = Some consecutive_violations <-> consecutive_days i > 3)
    /\ (warning a = Some multiple_monthly_instances <->
        consecutive_days i <= 3 /\ monthly_instances i > 5)
    /\ (warning a = None <->
        consecutive_days i <= 3 /\ monthly_instances i <= 5).
Proof.
  intros Hr. destruct (analyse_warning i Hr) as (a & Ha & Hw & _).
  exists a. split; [exact Ha | ]. rewrite Hw.
  unfold compute_warning, escalated.
  destruct (Z.gtb_spec (consecutive_days i) 3),
           (Z.gtb_spec (monthly_instances i) 5); cbn [orb];
    (split; [ | split]); split; intros Hc;
    try discriminate Hc; try reflexivity; lia.
Qed.

(** X4: whenever the penalty card is shown the list of trigger reasons is
    not empty: it holds the amount reason, with the shortfall, when the
    amount test holds, then the percentage reason, with the percentage,
    when the percentage test holds. *)
Theorem reasons_follow_flags (i : inputs) :
  in_range i = true ->
  exists a,
    analyse i = Py.Ok a
    /\ forall b,
        outcome a = PenaltyApplicable b ->
        reasons b <> []
        /\ reasons b
           = (if is_penalty_by_amount a then [by_amount (shortfall a)]
              else [])
             ++ (if is_penalty_by_percentage a
                 then [by_percentage (shortfall_percentage a)] else []).
Proof.
  intros Hr. destruct (in_range_amounts i Hr) as [Hav Hreq].
  destruct (Py.gt (Py.Float (difference i)) (Py.Int 0)) eqn:Hgt.
  - destruct (analyse_short i Hav Hreq Hgt)
      as (m & e & _ & _ & _ & _ & _ & _ & Ha).
    exists (short_analysis i (finite_pos m e)). split; [exact Ha | ].
    cbn [short_analysis outcome shortfall shortfall_percentage
      is_penalty_by_amount is_penalty_by_percentage].
    intros b Hb.
    destruct (Py.ge (Py.Float (finite_pos m e)) (Py.Int 100000));
      destruct (Py.ge (Py.Float (B64.mul _ _)) (Py.Int 10));
      cbn [orb negb] in Hb; try discriminate;
      injection Hb as <-; cbn [breakdown_of reasons app];
      split; (discriminate || reflexivity).
  - exists (safe_analysis i). split; [now apply analyse_safe | ].
    cbn [safe_analysis outcome]. discriminate.
Qed.

Lemma PenaltyApplicable_inj (x y : breakdown) :
  PenaltyApplicable x = PenaltyApplicable y -> x = y.
Proof. intros H. now injection H. Qed.

Lemma mul_one_hundred :
  B64.mul (finite_pos one_m (-52)) (B64.of_Z 100) = B64.of_Z 100.
Proof. vm_compute. reflexivity. Qed.

Lemma ge_hundred_ten : Py.ge (Py.Float (B64.of_Z 100)) (Py.Int 10) = true.
Proof. vm_compute. reflexivity. Qed.

(** X5: with nothing available and a positive required margin the
    shortfall is the whole required margin, the percentage is exactly
    [100.0] and the penalty card is shown, whatever the amount. *)
Theorem nothing_available_full_percentage (i : inputs) :
  in_range i = true ->
  Py.eq (Py.Float (margin_available i)) (Py.Int 0) = true ->
  Py.gt (Py.Float (margin_required i)) (Py.Int 0) = true ->
  exists a b,
    analyse i = Py.Ok a
    /\ shortfall a = Py.Float (margin_required i)
    /\ shortfall_percentage a = Py.Float (B64.of_Z 100)
    /\ is_penalty_by_percentage a = true
    /\ outcome a = PenaltyApplicable b.
Proof.
  intros Hr Hz Hpos. destruct (in_range_amounts i Hr) as [Hav Hreq].
  destruct (amount_cases _ Hav) as [[s Es] | (m0 & e0 & Es & _)].
  2: { rewrite Es in Hz. unfold finite_pos in Hz.
       rewrite eq_zero_finite in Hz. discriminate. }
  destruct (amount_cases _ Hreq) as [[t Et] | (mx & ex & Et & _)].
  1: { rewrite Et in Hpos. destruct t; discriminate. }
  assert (Hd : B64.sub (margin_required i) (margin_available i)
               = finite_pos mx ex) by (rewrite Es, Et; reflexivity).
  assert (Hgt : Py.gt (Py.Float (difference i)) (Py.Int 0) = true).
  { unfold difference. rewrite Hd. unfold finite_pos.
    now rewrite gt_zero_finite. }
  destruct (analyse_short i Hav Hreq Hgt)
    as (m & e & _ & _ & Hd' & _ & _ & _ & Ha).
  rewrite Hd in Hd'. injection Hd' as <- <-.
  exists (short_analysis i (finite_pos mx ex)). eexists.
  split; [exact Ha | ].
  cbn [short_analysis shortfall shortfall_percentage
    is_penalty_by_percentage outcome].
  rewrite Et, div_self, mul_one_hundred, ge_hundred_ten, orb_true_r.
  cbn [negb]. repeat (split; [reflexivity | ]). reflexivity.
Qed.

(** X6: every number the script shows for an in-range input is a finite,
    non-negative number: the shortfall and the percentage always, and the
    penalty, the GST and the total whenever the penalty card is shown.
    No input in range makes the arithmetic overflow or yield NaN. *)
Theorem amounts_finite_nonneg (i : inputs) :
  in_range i = true ->
  exists a,
    analyse i = Py.Ok a
    /\ finite_nonneg (shortfall a) = true
    /\ finite_nonneg (shortfall_percentage a) = true
    /\ forall b,
        outcome a = PenaltyApplicable b ->
        finite_nonneg (penalty_on_shortfall b) = true
        /\ finite_nonneg (gst_on_penalty b) = true
        /\ finite_nonneg (total_penalty b) = true.
Proof.
  intros Hr. destruct (in_range_amounts i Hr) as [Hav Hreq].
  destruct (Py.gt (Py.Float (difference i)) (Py.Int 0)) eqn:Hgt.
  - destruct (analyse_short i Hav Hreq Hgt)
      as (m & e & mx & ex & Hd & Hm & He & Hle & Ha).
    exists (short_analysis i (finite_pos m e)). split; [exact Ha | ].
    cbn [short_analysis shortfall shortfall_percentage outcome].
    split; [ | split].
    + apply (below_finite_nonneg m e). cbn. repeat split; try lia.
      rewrite Z.sub_diag. cbn. lia.
    + rewrite Hm, of_Z_100.
      apply (below_finite_nonneg hundred_m (-46)).
      apply mul_hundred_below. now apply div_below_one.
    + intros b Hb. destruct (negb _); [discriminate | ].
      apply PenaltyApplicable_inj in Hb. subst b.
      assert (Hv : bounded B64.prec B64.emax m e = true).
      { apply valid_bounded. rewrite <- Hd. now apply sub_valid. }
      set (pct := B64.mul _ _).
      set (amount := Py.ge (Py.Float (finite_pos m e)) _).
      set (percentage := Py.ge (Py.Float pct) _).
      destruct (breakdown_bounds (float_of_rate i) m e pct amount
                  percentage (float_of_rate_in_options i Hr) Hv)
        as (p & g & t & -> & -> & -> & _ & Hp & Hg & Ht & _).
      split; [now apply (below_finite_nonneg big_m 968) | ].
      split; [now apply (below_finite_nonneg big_m 968) | ].
      now apply (below_finite_nonneg big_m 969).
  - exists (safe_analysis i). split; [now apply analyse_safe | ].
    cbn [safe_analysis shortfall shortfall_percentage outcome].
    split; [reflexivity | ]. split; [ | discriminate].
    unfold zero_percentage.
    now destruct (Py.gt (Py.Float (margin_required i)) (Py.Int 0)).
Qed.

(** X7: whenever the penalty card is shown the amounts are ordered as
    one expects, in spite of the rounding: the GST is not above the
    penalty, the penalty is not above the total, and the penalty is not
    above the shortfall. *)
Theorem breakdown_amounts_ordered (i : inputs) :
  in_range i = true ->
  exists a,
    analyse i = Py.Ok a
    /\ forall b,
        outcome a = PenaltyApplicable b ->
        Py.le (gst_on_penalty b) (penalty_on_shortfall b) = true
        /\ Py.le (penalty_on_shortfall b) (total_penalty b) = true
        /\ Py.le (penalty_on_shortfall b) (shortfall a) = true.
Proof.
  intros Hr. destruct (in_range_amounts i Hr) as [Hav Hreq].
  destruct (Py.gt (Py.Float (difference i)) (Py.Int 0)) eqn:Hgt.
  - destruct (analyse_short i Hav Hreq Hgt)
      as (m & e & mx & ex & Hd & Hm & He & Hle & Ha).
    exists (short_analysis i (finite_pos m e)). split; [exact Ha | ].
    cbn [short_analysis shortfall outcome].
    intros b Hb. destruct (negb _); [discriminate | ].
    apply PenaltyApplicable_inj in Hb. subst b.
    assert (Hv : bounded B64.prec B64.emax m e = true).
    { apply valid_bounded. rewrite <- Hd. now apply sub_valid. }
    set (pct := B64.mul _ _).
    set (amount := Py.ge (Py.Float (finite_pos m e)) _).
    set (percentage := Py.ge (Py.Float pct) _).
    destruct (breakdown_bounds (float_of_rate i) m e pct amount
                percentage (float_of_rate_in_options i Hr) Hv)
      as (p & g & t & -> & -> & -> & Hpd & _ & _ & _ & Hgp & Hpt).
    split; [exact Hgp | ]. split; [exact Hpt | ].
    now apply below_float_leb.
  - exists (safe_analysis i). split; [now apply analyse_safe | ].
    cbn [safe_analysis outcome]. discriminate.
Qed.

(** X8: the chosen rate and the two counters never change what is
    detected: two in-range inputs with the same margins have the same
    shortfall, percentage, tests, metrics and kind of status card. *)
Theorem status_depends_on_margins_only (i j : inputs) :
  in_range i = true -> in_range j = true ->
  margin_required i = margin_required j ->
  margin_available i = margin_available j ->
  exists a a',
    analyse i = Py.Ok a /\ analyse j = Py.Ok a'
    /\ shortfall a = shortfall a'
    /\ shortfall_percentage a = shortfall_percentage a'
    /\ is_penalty_by_amount a = is_penalty_by_amount a'
    /\ is_penalty_by_percentage a = is_penalty_by_percentage a'
    /\ display_metrics a = display_metrics a'
    /\ (outcome a = Safe <-> outcome a' = Safe)
    /\ (outcome a = WithinLimits <-> outcome a' = WithinLimits).
Proof.
  intros Hi Hj Hreq Hav.
  destruct (in_range_amounts i Hi) as [Hiav Hireq].
  destruct (in_range_amounts j Hj) as [Hjav Hjreq].
  assert (Hd : difference j = difference i)
    by (unfold difference; now rewrite Hreq, Hav).
  destruct (Py.gt (Py.Float (difference i)) (Py.Int 0)) eqn:Hgt.
  - destruct (analyse_short i Hiav Hireq Hgt)
      as (m & e & _ & _ & Hdi & _ & _ & _ & Ha).
    rewrite <- Hd in Hgt.
    destruct (analyse_short j Hjav Hjreq Hgt)
      as (m' & e' & _ & _ & Hdj & _ & _ & _ & Ha').
    fold (difference i) in Hdi. fold (difference j) in Hdj.
    rewrite Hd, Hdi in Hdj. injection Hdj as <- <-.
    exists (short_analysis i (finite_pos m e)),
           (short_analysis j (finite_pos m e)).
    split; [exact Ha | ]. split; [exact Ha' | ].
    unfold display_metrics.
    cbn [short_analysis shortfall shortfall_percentage
      is_penalty_by_amount is_penalty_by_percentage outcome].
    rewrite Hreq.
    do 5 (split; [reflexivity | ]).
    destruct (negb _); split; split; intros H; (exact H || discriminate H).
  - exists (safe_analysis i), (safe_analysis j).
    split; [now apply analyse_safe | ].
    split; [apply analyse_safe; [exact Hjreq | now rewrite <- Hd in Hgt] | ].
    unfold display_metrics.
    cbn [safe_analysis shortfall shortfall_percentage
      is_penalty_by_amount is_penalty_by_percentage outcome].
    unfold zero_percentage. rewrite Hreq.
    do 5 (split; [reflexivity | ]). now split.
Qed.

(** X9: the example blocks of the second tab compute what the first tab
    computes at the rate [1.0] without escalation: whenever the first tab
    shows the penalty card for two margins, the example computation on
    the same margins succeeds with the same shortfall, percentage,
    penalty, GST and total, although it has neither the [max] nor the
    guard on the divisor. *)
Theorem example_agrees_with_analysis (i : inputs) :
  in_range i = true ->
  penalty_rate i = rate_1_0 ->
  escalated i = false ->
  exists a,
    analyse i = Py.Ok a
    /\ forall b,
        outcome a = PenaltyApplicable b ->
        compute_example (margin_required i) (margin_available i)
        = Py.Ok {| example_shortfall := shortfall a;
                   example_pct := shortfall_percentage a;
                   example_penalty := penalty_on_shortfall b;
                   example_gst := gst_on_penalty b;
                   example_total := total_penalty b |}.
Proof.
  intros Hr Hrate Hesc. destruct (in_range_amounts i Hr) as [Hav Hreq].
  destruct (Py.gt (Py.Float (difference i)) (Py.Int 0)) eqn:Hgt.
  - destruct (analyse_short i Hav Hreq Hgt)
      as (m & e & mx & ex & Hd & Hm & _ & _ & Ha).
    exists (short_analysis i (finite_pos m e)). split; [exact Ha | ].
    cbn [short_analysis shortfall shortfall_percentage outcome].
    intros b Hb. destruct (negb _); [discriminate | ].
    apply PenaltyApplicable_inj in Hb. subst b.
    unfold compute_example. rewrite sub_floats, Hd. cbn [Py.bind].
    rewrite Hm, truediv_finite. cbn [Py.bind].
    rewrite mul_float_100. cbn [Py.bind].
    rewrite truediv_float_100. cbn [Py.bind].
    unfold float_of_rate. rewrite Hesc, Hrate. reflexivity.
  - exists (safe_analysis i). split; [now apply analyse_safe | ].
    cbn [safe_analysis outcome]. discriminate.
Qed.

Lemma Some_inj {A : Type} (x y : A) : Some x = Some y -> x = y.
Proof. intros H. now injection H. Qed.

(** An integer above a float is above every float below that one. *)
Lemma below_lt_int (z : Z) (m : positive) (e : Z) (mx : positive) (ex : Z) :
  e <= ex -> Zpos m <= Zpos mx * 2 ^ (ex - e) ->
  Py.lt (Py.Float (finite_pos mx ex)) (Py.Int z) = true ->
  Py.ge (Py.Float (finite_pos m e)) (Py.Int z) = false.
Proof.
  intros He Hle Hlt.
  assert (Hx : Py.compare_Z_float z (finite_pos mx ex) = Some Gt).
  { unfold Py.lt, Py.compare in Hlt.
    destruct (Py.compare_Z_float z (finite_pos mx ex)) as [[ | | ] | ];
      try discriminate. reflexivity. }
  assert (Hd : Py.compare_Z_float z (finite_pos m e) = Some Gt).
  { unfold Py.compare_Z_float, finite_pos in Hx |- *.
    cbn [cond_Zopp] in Hx |- *. f_equal. apply Some_inj in Hx.
    assert (Hp : forall k, 0 < 2 ^ Zpos k)
      by (intros k; apply Z.pow_pos_nonneg; lia).
    destruct ex as [ | px | px], e as [ | pe | pe]; try lia;
      apply Z.compare_gt_iff; apply Z.compare_gt_iff in Hx.
    - rewrite Z.sub_diag in Hle. rewrite Z.pow_0_r in *. lia.
    - change (0 - Zneg pe) with (Zpos pe) in Hle. rewrite Z.pow_0_r in Hx.
      specialize (Hp pe). nia.
    - rewrite Z.sub_0_r in Hle. rewrite Z.pow_0_r. lia.
    - replace (Zpos px) with ((Zpos px - Zpos pe) + Zpos pe) in Hx by lia.
      rewrite Z.pow_add_r in Hx by lia.
      specialize (Hp pe). nia.
    - replace (Zpos px - Zneg pe) with (Zpos px + Zpos pe) in Hle by lia.
      rewrite Z.pow_add_r in Hle by lia.
      pose proof (Hp pe). pose proof (Hp px). nia.
    - replace (Zpos pe) with (Zpos px + (Zneg px - Zneg pe)) by lia.
      rewrite Z.pow_add_r by lia.
      pose proof (Hp px).
      assert (0 < 2 ^ (Zneg px - Zneg pe))
        by (apply Z.pow_pos_nonneg; lia).
      nia. }
  unfold Py.ge, Py.compare. now rewrite Hd.
Qed.

(** X10: when the required margin is below 100000 the amount test never
    holds, so that a penalty applies exactly when the percentage test
    holds. *)
Theorem small_requirement_percentage_only (i : inputs) :
  in_range i = true ->
  Py.lt (Py.Float (margin_required i)) (Py.Int 100000) = true ->
  exists a,
    analyse i = Py.Ok a
    /\ is_penalty_by_amount a = false
    /\ is_penalty_applicable a = is_penalty_by_percentage a.
Proof.
  intros Hr Hsmall. destruct (in_range_amounts i Hr) as [Hav Hreq].
  destruct (Py.gt (Py.Float (difference i)) (Py.Int 0)) eqn:Hgt.
  - destruct (analyse_short i Hav Hreq Hgt)
      as (m & e & mx & ex & _ & Hm & He & Hle & Ha).
    exists (short_analysis i (finite_pos m e)). split; [exact Ha | ].
    cbn [short_analysis is_penalty_by_amount is_penalty_applicable
      is_penalty_by_percentage].
    rewrite Hm in Hsmall.
    rewrite (below_lt_int 100000 m e mx ex He Hle Hsmall).
    now split.
  - exists (safe_analysis i). split; [now apply analyse_safe | now split].
Qed.

(** ** The further properties at concrete inputs *)

(** A required margin one unit in the last place above the available one
    is not "safe". *)
Lemma safe_iff_covered_hairline :
  in_range hairline = true
  /\ exists a,
       analyse hairline = Py.Ok a
       /\ Py.ge (Py.Float (margin_available hairline))
                (Py.Float (margin_required hairline)) = false
       /\ outcome a <> Safe
       /\ shortfall a <> Py.Int 0.
Proof.
  split; [evaluate | ].
  destruct (safe_iff_covered hairline) as (a & Ha & Hcov & Hzero);
    [evaluate | ].
  exists a. split; [exact Ha | ]. split; [evaluate | ].
  assert (Hns : outcome a <> Safe).
  { intros Hs. apply Hcov in Hs. vm_compute in Hs. discriminate Hs. }
  split; [exact Hns | ].
  intros Hs. apply Hns. now apply Hzero.
Defined.

Lemma metrics_agree_with_status_covered :
  in_range covered = true
  /\ exists a,
       analyse covered = Py.Ok a
       /\ outcome a = Safe
       /\ shortfall_amount_delta (display_metrics a) = no_shortfall.
Proof.
  split; [evaluate | ].
  destruct (metrics_agree_with_status covered) as (a & Ha & Hsafe & _);
    [evaluate | ].
  exists a. split; [exact Ha | ].
  assert (Hs : outcome a = Safe) by evaluate_at Ha.
  split; [exact Hs | now apply Hsafe].
Defined.

(** Both limits exceeded, the rate [5.0] already chosen and the margins
    covered: the warning is shown all the same, and names the days. *)
Lemma warning_cause_doubly_escalated :
  in_range doubly_escalated = true
  /\ exists a,
       analyse doubly_escalated = Py.Ok a
       /\ outcome a = Safe
       /\ penalty_rate doubly_escalated = rate_5_0
       /\ warning a = Some consecutive_violations.
Proof.
  split; [evaluate | ].
  destruct (warning_cause doubly_escalated) as (a & Ha & Hdays & _);
    [evaluate | ].
  exists a. split; [exact Ha | ].
  assert (Hs : outcome a = Safe) by evaluate_at Ha.
  split; [exact Hs | ]. split; [reflexivity | ].
  apply Hdays. cbn [doubly_escalated amounts consecutive_days]. lia.
Defined.

Lemma reasons_follow_flags_defaults :
  in_range defaults = true
  /\ exists a b,
       analyse defaults = Py.Ok a
       /\ outcome a = PenaltyApplicable b
       /\ reasons b = [by_amount (shortfall a);
                       by_percentage (shortfall_percentage a)].
Proof.
  split; [evaluate | ].
  destruct (reasons_follow_flags defaults) as (a & Ha & H); [evaluate | ].
  assert (Hb : exists b, outcome a = PenaltyApplicable b).
  { vm_compute in Ha. injection Ha as <-. eexists. reflexivity. }
  destruct Hb as [b Hb]. exists a, b.
  split; [exact Ha | ]. split; [exact Hb | ].
  destruct (H b Hb) as [_ Hreasons]. rewrite Hreasons.
  assert (H1 : is_penalty_by_amount a = true) by evaluate_at Ha.
  assert (H2 : is_penalty_by_percentage a = true) by evaluate_at Ha.
  rewrite H1, H2. reflexivity.
Defined.

Lemma nothing_available_full_percentage_escalated :
  in_range escalated_minor = true
  /\ Py.eq (Py.Float (margin_available escalated_minor)) (Py.Int 0) = true
  /\ Py.gt (Py.Float (margin_required escalated_minor)) (Py.Int 0) = true
  /\ exists a b,
       analyse escalated_minor = Py.Ok a
       /\ shortfall a = Py.Float (margin_required escalated_minor)
       /\ shortfall_percentage a = Py.Float (B64.of_Z 100)
       /\ is_penalty_by_percentage a = true
       /\ outcome a = PenaltyApplicable b.
Proof.
  split; [evaluate | ]. split; [evaluate | ]. split; [evaluate | ].
  apply (nothing_available_full_percentage escalated_minor); evaluate.
Defined.

Lemma amounts_finite_nonneg_defaults :
  in_range defaults = true
  /\ exists a b,
       analyse defaults = Py.Ok a
       /\ outcome a = PenaltyApplicable b
       /\ finite_nonneg (shortfall a) = true
       /\ finite_nonneg (shortfall_percentage a) = true
       /\ finite_nonneg (penalty_on_shortfall b) = true
       /\ finite_nonneg (gst_on_penalty b) = true
       /\ finite_nonneg (total_penalty b) = true.
Proof.
  split; [evaluate | ].
  destruct (amounts_finite_nonneg defaults) as (a & Ha & Hs & Hp & H);
    [evaluate | ].
  assert (Hb : exists b, outcome a = PenaltyApplicable b).
  { vm_compute in Ha. injection Ha as <-. eexists. reflexivity. }
  destruct Hb as [b Hb]. exists a, b.
  destruct (H b Hb) as (H1 & H2 & H3).
  repeat (split; [assumption | ]). assumption.
Defined.

Lemma breakdown_amounts_ordered_defaults :
  in_range defaults = true
  /\ exists a b,
       analyse defaults = Py.Ok a
       /\ outcome a = PenaltyApplicable b
       /\ Py.le (gst_on_penalty b) (penalty_on_shortfall b) = true
       /\ Py.le (penalty_on_shortfall b) (total_penalty b) = true
       /\ Py.le (penalty_on_shortfall b) (shortfall a) = true.
Proof.
  split; [evaluate | ].
  destruct (breakdown_amounts_ordered defaults) as (a & Ha & H);
    [evaluate | ].
  assert (Hb : exists b, outcome a = PenaltyApplicable b).
  { vm_compute in Ha. injection Ha as <-. eexists. reflexivity. }
  destruct Hb as [b Hb]. exists a, b.
  destruct (H b Hb) as (H1 & H2 & H3).
  repeat (split; [assumption | ]). assumption.
Defined.

(** The boundary margins with the rate [1.0] and four days, and with the
    rate [0.5] and no days: the same "within limits" card. *)
Lemma status_depends_on_margins_only_boundary :
  in_range boundary_within = true
  /\ in_range boundary_within_plain = true
  /\ penalty_rate boundary_within <> penalty_rate boundary_within_plain
  /\ exists a a',
       analyse boundary_within = Py.Ok a
       /\ analyse boundary_within_plain = Py.Ok a'
       /\ shortfall a = shortfall a'
       /\ shortfall_percentage a = shortfall_percentage a'
       /\ outcome a = WithinLimits
       /\ outcome a' = WithinLimits.
Proof.
  split; [evaluate | ]. split; [evaluate | ].
  split; [intros H; vm_compute in H; discriminate H | ].
  destruct (status_depends_on_margins_only boundary_within
              boundary_within_plain)
    as (a & a' & Ha & Ha' & Hs & Hp & _ & _ & _ & _ & Hw);
    [evaluate | evaluate | reflexivity | reflexivity | ].
  exists a, a'.
  assert (Hwa : outcome a = WithinLimits) by evaluate_at Ha.
  repeat (split; [assumption | ]). now apply Hw.
Defined.

(** The first example of the second tab is the first tab at its initial
    values, where both tests hold, as the example's card states. *)
Lemma example_agrees_with_analysis_defaults :
  in_range defaults = true
  /\ penalty_rate defaults = rate_1_0
  /\ escalated defaults = false
  /\ exists a b,
       analyse defaults = Py.Ok a
       /\ outcome a = PenaltyApplicable b
       /\ is_penalty_by_amount a = true
       /\ is_penalty_by_percentage a = true
       /\ example_1
          = Py.Ok {| example_shortfall := shortfall a;
                     example_pct := shortfall_percentage a;
                     example_penalty := penalty_on_shortfall b;
                     example_gst := gst_on_penalty b;
                     example_total := total_penalty b |}.
Proof.
  split; [evaluate | ]. split; [reflexivity | ]. split; [reflexivity | ].
  destruct (example_agrees_with_analysis defaults) as (a & Ha & H);
    [evaluate | reflexivity | reflexivity | ].
  assert (Hb : exists b, outcome a = PenaltyApplicable b).
  { vm_compute in Ha. injection Ha as <-. eexists. reflexivity. }
  destruct Hb as [b Hb]. exists a, b.
  split; [exact Ha | ]. split; [exact Hb | ].
  split; [evaluate_at Ha | ]. split; [evaluate_at Ha | ].
  exact (H b Hb).
Defined.

Lemma small_requirement_percentage_only_fifty :
  in_range small_requirement = true
  /\ Py.lt (Py.Float (margin_required small_requirement)) (Py.Int 100000)
     = true
  /\ exists a,
       analyse small_requirement = Py.Ok a
       /\ is_penalty_by_amount a = false
       /\ is_penalty_by_percentage a = true
       /\ is_penalty_applicable a = true.
Proof.
  split; [evaluate | ]. split; [evaluate | ].
  destruct (small_requirement_percentage_only small_requirement)
    as (a & Ha & Hamt & Happ); [evaluate | evaluate | ].
  exists a. split; [exact Ha | ]. split; [exact Hamt | ].
  assert (Hp : is_penalty_by_percentage a = true) by evaluate_at Ha.
  split; [exact Hp | now rewrite Happ].
Defined.

(** The second example of the second tab, too, is what the first tab
    computes on its margins, where both tests hold. *)
Lemma example_2_is_analysis :
  exists a b,
    analyse second_example = Py.Ok a
    /\ outcome a = PenaltyApplicable b
    /\ is_penalty_by_amount a = true
    /\ is_penalty_by_percentage a = true
    /\ example_2
       = Py.Ok {| example_shortfall := shortfall a;
                  example_pct := shortfall_percentage a;
                  example_penalty := penalty_on_shortfall b;
                  example_gst := gst_on_penalty b;
                  example_total := total_penalty b |}.
Proof.
  eexists. eexists. split; [evaluate | ].
  cbn [outcome is_penalty_by_amount is_penalty_by_percentage].
  split; [reflexivity | ]. split; [reflexivity | ].
  split; [reflexivity | ]. evaluate.
Qed.
